(** * cryptobot_api_gateway: broker session, subscription manager and
      command handlers

    A shallow embedding of [internal/messaging] (the [MessageClient] that
    owns the STOMP connection to ActiveMQ Artemis) and of the command
    handlers of [internal/gateway], together with the properties their
    specification states about them.

    Calls that leave the process (the network, the STOMP library,
    [encoding/json], the per-message handler, the logger) are events of a
    small free monad; a program is run against an arbitrary environment
    that answers them, and the run records what was asked and answered.
    Every method of [MessageClient] is taken as one atomic call: the two
    mutexes of the Go code are not modelled. A goroutine that panics ends
    the process: the system records it and nothing runs afterwards. *)

From Stdlib.Strings Require Import Byte Ascii.
From stdpp Require Import gmap strings list fin_maps.

Set Default Proof Using "Type".

(** ** Values that cross the boundary of the process *)

(** [[]byte] *)
Abbreviation bytes := (list byte).

(** The text of an [error] returned by a library ([net], [stomp], [json],
    a handler). *)
Abbreviation ExtError := string.

(** A Go pair [(v, err)] returned by a library: exactly one side is set. *)
Inductive res (A : Type) : Type :=
| Ok (a : A)
| Fail (err : ExtError).
Arguments Ok {A} a.
Arguments Fail {A} err.

(** Handles of objects owned by libraries. *)
Definition NetConn := nat.        (* net.Conn *)
Definition Conn := nat.           (* stomp.Conn *)
Definition Subscription := nat.   (* stomp.Subscription *)
Definition Handler := nat.        (* a func([]byte) error value *)

(** [*stomp.Message] as read from [sub.C]: the two fields the consumer
    looks at. The receive itself yields an [option Message], [None] being
    the nil pointer that a receive from a closed channel gives. *)
Record Message := { Err : option ExtError; Body : bytes }.

(** A value of type [interface{}] handed to [json.Marshal]. [VFunc] stands
    for the values [encoding/json] has no encoding for. *)
#[warnings="-register-all"]
Inductive GoValue : Type :=
| VNil
| VBool (b : bool)
| VNumber (literal : string)
| VString (s : string)
| VSlice (l : list GoValue)
| VMap (m : list (string * GoValue))
| VFunc.

Inductive Level := DebugLevel | InfoLevel | WarnLevel | ErrorLevel.

(** ** Errors built by the package *)

(** One constructor per [fmt.Errorf] of messaging/client.go; [cause] is the
    error wrapped with [%w]. *)
Inductive Error : Type :=
| ErrDial (cause : ExtError)
| ErrStompConnect (cause : ExtError)
| ErrNotConnected
| ErrAlreadySubscribed (topic : string)
| ErrSubscribe (topic : string) (cause : ExtError)
| ErrMarshal (cause : ExtError)
| ErrSendQueue (queue : string) (cause : ExtError)
| ErrSendTopic (topic : string) (cause : ExtError)
| ErrNotSubscribed (topic : string)
| ErrUnsubscribe (topic : string) (cause : ExtError).

(** [err.Error()] *)
Definition Error_text (e : Error) : string :=
  match e with
  | ErrDial c => "failed to connect to message broker: " +:+ c
  | ErrStompConnect c => "failed to establish STOMP connection: " +:+ c
  | ErrNotConnected => "not connected to message broker"
  | ErrAlreadySubscribed t => "already subscribed to topic: " +:+ t
  | ErrSubscribe t c => "failed to subscribe to topic " +:+ t +:+ ": " +:+ c
  | ErrMarshal c => "failed to marshal message: " +:+ c
  | ErrSendQueue q c => "failed to send message to queue " +:+ q +:+ ": " +:+ c
  | ErrSendTopic t c => "failed to send message to topic " +:+ t +:+ ": " +:+ c
  | ErrNotSubscribed t => "not subscribed to topic: " +:+ t
  | ErrUnsubscribe t c => "failed to unsubscribe from topic " +:+ t +:+ ": " +:+ c
  end.

(** The error taxonomy of the specification. The Go code has no typed
    errors; this reads the taxonomy off the error each branch builds. *)
Inductive ErrorKind :=
| BrokerUnavailable | AlreadySubscribed | NotSubscribed | EncodingError
| TransportError.

Definition kind_of (e : Error) : ErrorKind :=
  match e with
  | ErrDial _ | ErrStompConnect _ | ErrNotConnected => BrokerUnavailable
  | ErrAlreadySubscribed _ => AlreadySubscribed
  | ErrNotSubscribed _ => NotSubscribed
  | ErrMarshal _ => EncodingError
  | ErrSubscribe _ _ | ErrSendQueue _ _ | ErrSendTopic _ _
  | ErrUnsubscribe _ _ => TransportError
  end.

(** ** Events and programs *)

(** A call that leaves the package. Pointers to [stomp.Conn] are passed as
    the code holds them, [None] being [nil]. *)
Inductive Event : Type :=
| NetDialTimeout (network address : string) (seconds : nat)
| NetConnClose (nc : NetConn)
| StompConnect (nc : NetConn) (login passcode : string)
| ConnSubscribe (c : option Conn) (destination : string)
| ConnSend (c : option Conn) (destination contentType : string) (body : bytes)
| ConnDisconnect (c : option Conn)
| SubUnsubscribe (s : Subscription)
| SubRecv (s : Subscription)
| JsonMarshal (v : GoValue)
| CallHandler (h : Handler) (body : bytes)
| TimeNow
| Log (lvl : Level) (msg : string).

(** What the environment gives back. *)
Definition Resp (e : Event) : Type :=
  match e with
  | NetDialTimeout _ _ _ => res NetConn
  | NetConnClose _ => unit
  | StompConnect _ _ _ => res Conn
  | ConnSubscribe _ _ => res Subscription
  | ConnSend _ _ _ _ => option ExtError
  | ConnDisconnect _ => option ExtError
  | SubUnsubscribe _ => option ExtError
  | SubRecv _ => option Message
  | JsonMarshal _ => res bytes
  | CallHandler _ _ => option ExtError
  | TimeNow => string
  | Log _ _ => unit
  end.

Inductive Prog (A : Type) : Type :=
| Ret (a : A)
| Vis (e : Event) (k : Resp e → Prog A).
Arguments Ret {A} a.
Arguments Vis {A} e k.

Fixpoint Prog_bind {A B} (f : A → Prog B) (p : Prog A) : Prog B :=
  match p with
  | Ret a => f a
  | Vis e k => Vis e (λ r, Prog_bind f (k r))
  end.

#[export] Instance Prog_ret : MRet Prog := @Ret.
#[export] Instance Prog_mbind : MBind Prog := @Prog_bind.

Definition call (e : Event) : Prog (Resp e) := Vis e Ret.

(** One answered call. *)
Definition Obs := { e : Event & Resp e }.
Definition obs (e : Event) (r : Resp e) : Obs := existT e r.
Definition event_of (o : Obs) : Event := projT1 o.

(** Running a program against an environment with state [W]. *)
Section Run.
Context {W : Type} (answer : ∀ e : Event, W → Resp e * W).

Fixpoint run {A} (p : Prog A) (w : W) : A * W * list Obs :=
  match p with
  | Ret a => (a, w, [])
  | Vis e k =>
      let '(r, w1) := answer e w in
      let '(a, w2, tr) := run (k r) w1 in
      (a, w2, obs e r :: tr)
  end.
End Run.

(** ** net.JoinHostPort *)

(** The Go standard library brackets a host that contains a colon (a
    literal IPv6 address). *)
Fixpoint has_colon (s : string) : bool :=
  match s with
  | EmptyString => false
  | String a rest => Ascii.eqb a ":"%char || has_colon rest
  end.

Definition JoinHostPort (host port : string) : string :=
  if has_colon host then "[" +:+ host +:+ "]:" +:+ port
  else host +:+ ":" +:+ port.

(** ** messaging.MessageClient *)

Module Messaging.

(** The struct, without its logger and mutexes. [conn = None] is the nil
    pointer. *)
Record MessageClient := {
  conn : option Conn;
  subscriptions : gmap string Subscription;
  url : string;
  connected : bool
}.

Definition with_conn (c : Conn) (mc : MessageClient) : MessageClient :=
  {| conn := Some c; subscriptions := subscriptions mc; url := url mc;
     connected := true |}.

Definition with_subscriptions (m : gmap string Subscription)
    (mc : MessageClient) : MessageClient :=
  {| conn := conn mc; subscriptions := m; url := url mc;
     connected := connected mc |}.

Definition disconnected (m : gmap string Subscription)
    (mc : MessageClient) : MessageClient :=
  {| conn := conn mc; subscriptions := m; url := url mc;
     connected := false |}.

(** The goroutine started by [SubscribeToTopic]: what its closure
    captures. *)
Record Consumer := {
  c_topic : string;
  c_sub : Subscription;
  c_handler : Handler
}.

(** [connect]: the address dialled is built from two literals. *)
Definition connect (mc : MessageClient) : Prog (MessageClient * option Error) :=
  let host := "artemis-service" in
  let port := "61613" in
  r ← call (NetDialTimeout "tcp" (JoinHostPort host port) 10);
  match r with
  | Fail err => mret (mc, Some (ErrDial err))
  | Ok netConn =>
      r' ← call (StompConnect netConn "admin" "admin");
      match r' with
      | Fail err =>
          call (NetConnClose netConn);;
          mret (mc, Some (ErrStompConnect err))
      | Ok c =>
          call (Log InfoLevel "Connected to message broker");;
          mret (with_conn c mc, None)
      end
  end.

(** [NewMessageClient]: the client is returned only when [connect]
    succeeded. *)
Definition NewMessageClient (brokerURL : string)
    : Prog (option MessageClient * option Error) :=
  let client := {| conn := None; subscriptions := ∅; url := brokerURL;
                   connected := false |} in
  '(client', err) ← connect client;
  match err with
  | Some e => mret (None, Some e)
  | None => mret (Some client', None)
  end.

Definition IsConnected (mc : MessageClient) : bool :=
  connected mc && negb (bool_decide (conn mc = None)).

(** [SubscribeToTopic]: the second component is the goroutine the call
    started, if it started one. *)
Definition SubscribeToTopic (topic : string) (handler : Handler)
    (mc : MessageClient)
    : Prog (MessageClient * option Consumer * option Error) :=
  if negb (IsConnected mc) then mret (mc, None, Some ErrNotConnected)
  else match subscriptions mc !! topic with
  | Some _ => mret (mc, None, Some (ErrAlreadySubscribed topic))
  | None =>
      r ← call (ConnSubscribe (conn mc) topic);
      match r with
      | Fail err => mret (mc, None, Some (ErrSubscribe topic err))
      | Ok sub =>
          call (Log InfoLevel ("Subscribed to topic: " +:+ topic));;
          mret (with_subscriptions (<[topic := sub]> (subscriptions mc)) mc,
                Some {| c_topic := topic; c_sub := sub; c_handler := handler |},
                None)
      end
  end.

(** The body of the goroutine. One turn of its [for] loop goes on, breaks
    out, or panics: [msg.Err] is read without a nil check, so a nil [msg]
    is a nil pointer dereference, and a panic in a goroutine ends the
    process. *)
Inductive LoopCtl := Continue | Break | Panic.

Definition consumer_iteration (c : Consumer) : Prog LoopCtl :=
  msg ← call (SubRecv (c_sub c));
  match msg with
  | None => mret Panic
  | Some msg =>
      match Err msg with
      | Some e =>
          call (Log ErrorLevel ("Error receiving message from topic "
                                +:+ c_topic c +:+ ": " +:+ e));;
          mret Break
      | None =>
          r ← call (CallHandler (c_handler c) (Body msg));
          match r with
          | Some e =>
              call (Log ErrorLevel ("Error handling message from topic "
                                    +:+ c_topic c +:+ ": " +:+ e));;
              mret Continue
          | None => mret Continue
          end
      end
  end.

(** The first [n] turns of the loop; [Continue] means the goroutine is
    still inside it. *)
Fixpoint consumer_loop (n : nat) (c : Consumer) : Prog LoopCtl :=
  match n with
  | 0 => mret Continue
  | S n' =>
      ctl ← consumer_iteration c;
      match ctl with
      | Break => mret Break
      | Panic => mret Panic
      | Continue => consumer_loop n' c
      end
  end.

(** What follows the loop: the entry of the topic is deleted. *)
Definition consumer_cleanup (c : Consumer) (mc : MessageClient)
    : Prog MessageClient :=
  call (Log InfoLevel ("Unsubscribed from topic: " +:+ c_topic c));;
  mret (with_subscriptions (delete (c_topic c) (subscriptions mc)) mc).

(** Where a goroutine is after some turns: still in its loop, returned,
    or panicked (and the process with it). *)
Inductive Goroutine := InLoop | Returned | Panicked.

(** The goroutine over its first [n] turns. *)
Definition consumer_goroutine (n : nat) (c : Consumer) (mc : MessageClient)
    : Prog (MessageClient * Goroutine) :=
  ctl ← consumer_loop n c;
  match ctl with
  | Continue => mret (mc, InLoop)
  | Break => mc' ← consumer_cleanup c mc; mret (mc', Returned)
  | Panic => mret (mc, Panicked)
  end.

Definition PublishToQueue (queue : string) (message : GoValue)
    (mc : MessageClient) : Prog (option Error) :=
  if negb (IsConnected mc) then mret (Some ErrNotConnected)
  else
    r ← call (JsonMarshal message);
    match r with
    | Fail err => mret (Some (ErrMarshal err))
    | Ok data =>
        err ← call (ConnSend (conn mc) queue "application/json" data);
        match err with
        | Some e => mret (Some (ErrSendQueue queue e))
        | None =>
            call (Log DebugLevel ("Published message to queue: " +:+ queue));;
            mret None
        end
    end.

Definition PublishToTopic (topic : string) (message : GoValue)
    (mc : MessageClient) : Prog (option Error) :=
  if negb (IsConnected mc) then mret (Some ErrNotConnected)
  else
    r ← call (JsonMarshal message);
    match r with
    | Fail err => mret (Some (ErrMarshal err))
    | Ok data =>
        err ← call (ConnSend (conn mc) topic "application/json" data);
        match err with
        | Some e => mret (Some (ErrSendTopic topic e))
        | None =>
            call (Log DebugLevel ("Published message to topic: " +:+ topic));;
            mret None
        end
    end.

Definition Unsubscribe (topic : string) (mc : MessageClient)
    : Prog (MessageClient * option Error) :=
  match subscriptions mc !! topic with
  | None => mret (mc, Some (ErrNotSubscribed topic))
  | Some sub =>
      err ← call (SubUnsubscribe sub);
      match err with
      | Some e => mret (mc, Some (ErrUnsubscribe topic e))
      | None =>
          call (Log InfoLevel ("Unsubscribed from topic: " +:+ topic));;
          mret (with_subscriptions (delete topic (subscriptions mc)) mc, None)
      end
  end.

(** The [range] loop of [Close] over the entries still to visit; the
    result of [sub.Unsubscribe()] is dropped. Go visits the entries in an
    unspecified order, here it is the order of [map_to_list]. *)
Fixpoint unsubscribe_all (entries : list (string * Subscription))
    (m : gmap string Subscription) : Prog (gmap string Subscription) :=
  match entries with
  | [] => mret m
  | (topic, sub) :: rest =>
      call (SubUnsubscribe sub);;
      call (Log InfoLevel ("Unsubscribed from topic: " +:+ topic));;
      unsubscribe_all rest (delete topic m)
  end.

Definition Close (mc : MessageClient) : Prog MessageClient :=
  if negb (connected mc) || bool_decide (conn mc = None) then mret mc
  else
    m ← unsubscribe_all (map_to_list (subscriptions mc)) (subscriptions mc);
    call (ConnDisconnect (conn mc));;
    call (Log InfoLevel "Disconnected from message broker");;
    mret (disconnected m mc).

(** ** The client and its goroutines as one system *)

(** [panicked] is raised when a goroutine has panicked: the process is
    gone and nothing runs any more. *)
Record System := {
  client : MessageClient;
  goroutines : list Consumer;
  panicked : bool
}.

(** What can happen next: a caller invokes an exported method, or the
    goroutine at some index takes one turn of its loop. *)
Inductive Op :=
| CallSubscribeToTopic (topic : string) (handler : Handler)
| CallPublishToQueue (queue : string) (message : GoValue)
| CallPublishToTopic (topic : string) (message : GoValue)
| CallUnsubscribe (topic : string)
| CallIsConnected
| CallClose
| ConsumerTurn (i : nat).

Definition spawn (c : option Consumer) (gs : list Consumer) : list Consumer :=
  match c with
  | Some c => gs ++ [c]
  | None => gs
  end.

Definition step (op : Op) (s : System) : Prog System :=
  match op with
  | CallSubscribeToTopic topic handler =>
      '(mc, started, _) ← SubscribeToTopic topic handler (client s);
      mret {| client := mc; goroutines := spawn started (goroutines s);
              panicked := panicked s |}
  | CallPublishToQueue queue message =>
      PublishToQueue queue message (client s);; mret s
  | CallPublishToTopic topic message =>
      PublishToTopic topic message (client s);; mret s
  | CallUnsubscribe topic =>
      '(mc, _) ← Unsubscribe topic (client s);
      mret {| client := mc; goroutines := goroutines s;
              panicked := panicked s |}
  | CallIsConnected => mret s
  | CallClose =>
      mc ← Close (client s);
      mret {| client := mc; goroutines := goroutines s;
              panicked := panicked s |}
  | ConsumerTurn i =>
      match goroutines s !! i with
      | None => mret s
      | Some c =>
          ctl ← consumer_iteration c;
          match ctl with
          | Continue => mret s
          | Break =>
              mc ← consumer_cleanup c (client s);
              mret {| client := mc; goroutines := delete i (goroutines s);
                      panicked := panicked s |}
          | Panic =>
              mret {| client := client s; goroutines := goroutines s;
                      panicked := true |}
          end
      end
  end.

(** A run of the process: once a goroutine has panicked nothing is
    executed any more. *)
Fixpoint steps (ops : list Op) (s : System) : Prog System :=
  match ops with
  | [] => mret s
  | op :: rest =>
      if panicked s then mret s else s' ← step op s; steps rest s'
  end.

End Messaging.

(** ** gateway: the command handlers *)

Module Gateway.
Import Messaging.

(** net/http status codes used by the handlers. *)
Definition StatusAccepted : nat := 202.
Definition StatusBadRequest : nat := 400.
Definition StatusInternalServerError : nat := 500.
Definition StatusServiceUnavailable : nat := 503.

(** The field of [Gateway] the handlers read; [None] is the nil client
    that [main] passes on when the broker could not be reached. *)
Record Gateway := { messageClient : option MessageClient }.

(** [c.JSON(status, gin.H{...})] *)
Record Response := { status : nat; body : list (string * string) }.

Definition JSON (code : nat) (h : list (string * string)) : Prog Response :=
  mret {| status := code; body := h |}.

(** The request structs; a [time.Time] is kept as its RFC 3339 text. Each
    handler receives the outcome of [c.ShouldBindJSON(&request)]. *)
Record StartBotRequest := { sb_BotID : string; sb_Config : GoValue }.
Record StopBotRequest := { st_BotID : string }.
Record FetchHistoryRequest := {
  fh_Symbol : string;
  fh_StartDate : string;
  fh_EndDate : string
}.

Definition handleStartBot (g : Gateway) (bound : res StartBotRequest)
    : Prog Response :=
  match messageClient g with
  | None =>
      JSON StatusServiceUnavailable [("error", "Message broker not available")]
  | Some mc =>
      match bound with
      | Fail err => JSON StatusBadRequest [("error", err)]
      | Ok request =>
          now ← call TimeNow;
          let message := VMap [("command", VString "start");
                               ("botId", VString (sb_BotID request));
                               ("config", sb_Config request);
                               ("timestamp", VString now)] in
          err ← PublishToQueue "queue://commands.start_bot" message mc;
          match err with
          | Some e =>
              call (Log ErrorLevel ("Failed to publish start bot command: "
                                    +:+ Error_text e));;
              JSON StatusInternalServerError [("error", "Failed to send command")]
          | None =>
              JSON StatusAccepted [("message", "Start bot command sent");
                                   ("botId", sb_BotID request)]
          end
      end
  end.

Definition handleStopBot (g : Gateway) (bound : res StopBotRequest)
    : Prog Response :=
  match messageClient g with
  | None =>
      JSON StatusServiceUnavailable [("error", "Message broker not available")]
  | Some mc =>
      match bound with
      | Fail err => JSON StatusBadRequest [("error", err)]
      | Ok request =>
          now ← call TimeNow;
          let message := VMap [("command", VString "stop");
                               ("botId", VString (st_BotID request));
                               ("timestamp", VString now)] in
          err ← PublishToQueue "queue://commands.stop_bot" message mc;
          match err with
          | Some e =>
              call (Log ErrorLevel ("Failed to publish stop bot command: "
                                    +:+ Error_text e));;
              JSON StatusInternalServerError [("error", "Failed to send command")]
          | None =>
              JSON StatusAccepted [("message", "Stop bot command sent");
                                   ("botId", st_BotID request)]
          end
      end
  end.

Definition handleFetchHistory (g : Gateway) (bound : res FetchHistoryRequest)
    : Prog Response :=
  match messageClient g with
  | None =>
      JSON StatusServiceUnavailable [("error", "Message broker not available")]
  | Some mc =>
      match bound with
      | Fail err => JSON StatusBadRequest [("error", err)]
      | Ok request =>
          now ← call TimeNow;
          let message := VMap [("command", VString "fetch_history");
                               ("symbol", VString (fh_Symbol request));
                               ("startDate", VString (fh_StartDate request));
                               ("endDate", VString (fh_EndDate request));
                               ("timestamp", VString now)] in
          err ← PublishToQueue "queue://commands.fetch.history" message mc;
          match err with
          | Some e =>
              call (Log ErrorLevel ("Failed to publish fetch history command: "
                                    +:+ Error_text e));;
              JSON StatusInternalServerError [("error", "Failed to send command")]
          | None =>
              JSON StatusAccepted [("message", "Fetch history command sent");
                                   ("symbol", fh_Symbol request)]
          end
      end
  end.

(** The two answers the handlers give when the command was not sent. *)
Definition broker_not_available : Response :=
  {| status := StatusServiceUnavailable;
     body := [("error", "Message broker not available")] |}.

Definition failed_to_send : Response :=
  {| status := StatusInternalServerError;
     body := [("error", "Failed to send command")] |}.

(** [checkMessageBrokerHealth] *)
Definition checkMessageBrokerHealth (g : Gateway) : string :=
  match messageClient g with
  | None => "disconnected"
  | Some mc => if IsConnected mc then "connected" else "error"
  end.

End Gateway.

(** ** websocket.Hub *)

Module Hub.

(** [{type, data}], the unit broadcast to clients. *)
Record Envelope := { env_type : string; env_data : GoValue }.

(** Modelled from the spec: internal/websocket/hub.go is not among the
    sources, so the connection follows section 3 of the specification: an
    optional user identity and a bounded FIFO outbound queue whose
    capacity is fixed at creation. Only live connections are kept, so the
    state of a connection is left out. *)
Record Connection := {
  userID : option string;
  queue : list Envelope;
  capacity : nat
}.

(** Modelled from the spec: the registry of section 4.1, a mapping from
    connection id to connection handle, with the next id to hand out. *)
Record Hub := {
  registry : gmap nat Connection;
  nextID : nat
}.

(** Modelled from the spec: the one way a delivery can fail, a saturated
    outbound queue. *)
Inductive DeliveryError := QueueFull.

(** Modelled from the spec: the non-blocking send of section 4.1 on the
    outbound queue of one connection. *)
Definition enqueue (e : Envelope) (c : Connection)
    : Connection + DeliveryError :=
  if decide (length (queue c) < capacity c)
  then inl {| userID := userID c; queue := queue c ++ [e];
              capacity := capacity c |}
  else inr QueueFull.

(** Modelled from the spec: [register] of section 4.1; ids are handed out
    in increasing order, so none is used twice. *)
Definition register (c : Connection) (h : Hub) : Hub * nat :=
  ({| registry := <[nextID h := c]> (registry h); nextID := S (nextID h) |},
   nextID h).

(** Modelled from the spec: [unregister] of section 4.1, an idempotent
    removal. *)
Definition unregister (id : nat) (h : Hub) : Hub :=
  {| registry := delete id (registry h); nextID := nextID h |}.

(** Modelled from the spec: what [broadcast] does with one registered
    connection: the envelope is enqueued, or the connection is evicted
    when its queue is full. *)
Definition deliver (e : Envelope) (c : Connection) : option Connection :=
  match enqueue e c with
  | inl c' => Some c'
  | inr QueueFull => None
  end.

(** Modelled from the spec: [broadcast] of section 4.1, applied by the
    coordinating loop to the registry as it is when the request is taken.
    A failed delivery is not reported: the error returned is always nil. *)
Definition broadcast (e : Envelope) (h : Hub) : Hub * option DeliveryError :=
  ({| registry := omap (deliver e) (registry h); nextID := nextID h |}, None).

(** Modelled from the spec: the requests the coordinating loop of section
    4.1 takes off its channels, one at a time. *)
Inductive Request :=
| Register (c : Connection)
| Unregister (id : nat)
| Broadcast (e : Envelope).

Definition serve (h : Hub) (r : Request) : Hub :=
  match r with
  | Register c => (register c h).1
  | Unregister id => unregister id h
  | Broadcast e => (broadcast e h).1
  end.

Definition new_hub : Hub := {| registry := ∅; nextID := 0 |}.

End Hub.

(** ** Reachable systems and what a run shows *)

Section Reachable.
Import Messaging.
Context {W : Type} (answer : ∀ e : Event, W → Resp e * W).

(** The systems a process can be in: [NewMessageClient] returned a
    client, then calls and goroutine turns followed, the environment
    being in any state at each of them. A process that has panicked takes
    no further step. *)
Inductive reachable : System → Prop :=
| reachable_new brokerURL w mc w' tr :
    run answer (NewMessageClient brokerURL) w = ((Some mc, None), w', tr) →
    reachable {| client := mc; goroutines := []; panicked := false |}
| reachable_step s op w s' w' tr :
    reachable s →
    panicked s = false →
    run answer (step op s) w = (s', w', tr) →
    reachable s'.
End Reachable.

(** ** Invariants of the client *)

Section Invariants.
Import Messaging.

(** A client that is not connected holds no subscription. *)
Definition tidy (mc : MessageClient) : Prop :=
  IsConnected mc = false → subscriptions mc = ∅.

(** Every entry of the subscription map has its goroutine. *)
Definition consumed (s : System) : Prop :=
  ∀ topic sub,
    subscriptions (client s) !! topic = Some sub →
    ∃ handler,
      {| c_topic := topic; c_sub := sub; c_handler := handler |}
        ∈ goroutines s.

(** The ways one step changes the client: not at all; an entry is added
    for a topic that had none, on a connected client; the entry of a
    topic is deleted; or a connected client is closed. The [connected]
    flag is never raised. *)
Inductive client_change (mc : MessageClient) : MessageClient → Prop :=
| change_none : client_change mc mc
| change_added topic sub :
    IsConnected mc = true →
    subscriptions mc !! topic = None →
    client_change mc
      (with_subscriptions (<[topic := sub]> (subscriptions mc)) mc)
| change_deleted topic :
    client_change mc
      (with_subscriptions (delete topic (subscriptions mc)) mc)
| change_closed :
    IsConnected mc = true →
    client_change mc (disconnected ∅ mc).
End Invariants.

(** The subscriptions a run asked the transport to cancel, in order. *)
Definition unsubscribed (o : Obs) : option Subscription :=
  match event_of o with
  | SubUnsubscribe s => Some s
  | _ => None
  end.

(** The messages a run read from [sub.C], in order. *)
Definition received (o : Obs) : option Message :=
  match o with
  | existT e r =>
      match e return Resp e → option Message with
      | SubRecv _ => λ m, m
      | _ => λ _, None
      end r
  end.

(** The subscriptions from whose closed channel a run read nil. *)
Definition nil_read (o : Obs) : option Subscription :=
  match o with
  | existT e r =>
      match e return Resp e → option Subscription with
      | SubRecv s => λ m, match m with None => Some s | Some _ => None end
      | _ => λ _, None
      end r
  end.

(** The invocations of a handler in a run: handler, body, result. *)
Definition handled (o : Obs) : option (Handler * bytes * option ExtError) :=
  match o with
  | existT e r =>
      match e return Resp e → option (Handler * bytes * option ExtError) with
      | CallHandler h b => λ err, Some (h, b, err)
      | _ => λ _, None
      end r
  end.

(** The lines a run logged. *)
Definition logged (o : Obs) : option (Level * string) :=
  match event_of o with
  | Log lvl msg => Some (lvl, msg)
  | _ => None
  end.

Definition messages_received (tr : list Obs) : list Message := omap received tr.
Definition handler_calls (tr : list Obs) := omap handled tr.
Definition log_lines (tr : list Obs) : list (Level * string) := omap logged tr.

(** The subscription a call opened at the transport, if it opened one. *)
Definition opened (o : Obs) : option (string * Subscription) :=
  match o with
  | existT e r =>
      match e return Resp e → option (string * Subscription) with
      | ConnSubscribe _ topic =>
          λ r, match r with Ok sub => Some (topic, sub) | Fail _ => None end
      | _ => λ _, None
      end r
  end.

(** The subscription a call closed at the transport: [sub.Unsubscribe()]
    closes it when it returns nil; when it fails the subscription is
    counted as still open. *)
Definition closed (o : Obs) : option Subscription :=
  match o with
  | existT e r =>
      match e return Resp e → option Subscription with
      | SubUnsubscribe sub =>
          λ r, match r with None => Some sub | Some _ => None end
      | _ => λ _, None
      end r
  end.

(** The subscriptions open at the transport, by topic and handle, as one
    more answered call is taken into account. *)
Definition track (open : list (string * Subscription)) (o : Obs)
    : list (string * Subscription) :=
  match opened o, closed o with
  | Some entry, _ => entry :: open
  | None, Some sub => filter (λ p, p.2 ≠ sub) open
  | None, None => open
  end.

Definition open_after (tr : list Obs) (open : list (string * Subscription))
    : list (string * Subscription) :=
  foldl track open tr.

(** The steps that are calls of exported methods. *)
Definition is_call (op : Messaging.Op) : bool :=
  match op with
  | Messaging.ConsumerTurn _ => false
  | _ => true
  end.

(** What the client knows of the transport: no topic is open twice, and
    while the client is connected every open subscription is the entry of
    its topic in the map. *)
Definition tracked (open : list (string * Subscription))
    (mc : Messaging.MessageClient) : Prop :=
  NoDup open.*1 ∧
  (Messaging.IsConnected mc = true →
   ∀ topic sub, (topic, sub) ∈ open →
     Messaging.subscriptions mc !! topic = Some sub).

(** The line the consumer of a topic logs for a handler error. *)
Definition handling_error_line (c : Messaging.Consumer) (e : ExtError)
    : Level * string :=
  (ErrorLevel,
   "Error handling message from topic " +:+ Messaging.c_topic c +:+ ": " +:+ e).

(** Whether an event reaches the broker transport. *)
Definition to_transport (e : Event) : bool :=
  match e with
  | ConnSubscribe _ _ | ConnSend _ _ _ _ | ConnDisconnect _
  | SubUnsubscribe _ => true
  | _ => false
  end.

(** ** Concrete environments *)

(** What goes wrong in a scripted environment. *)
Record Faults := {
  marshal_fails : bool;
  send_fails : bool;
  unsubscribe_fails : bool;
  receive_fails : bool;
  handler_fails : bool
}.

Definition no_faults : Faults :=
  {| marshal_fails := false; send_fails := false; unsubscribe_fails := false;
     receive_fails := false; handler_fails := false |}.

(** An environment whose state counts the handles it has given out. The
    broker is always reachable and every receive finds a message; the
    rest follows the script. *)
Definition scripted (f : Faults) (e : Event) (w : nat) : Resp e * nat :=
  match e return Resp e * nat with
  | NetDialTimeout _ _ _ => (Ok w, S w)
  | NetConnClose _ => (tt, w)
  | StompConnect _ _ _ => (Ok w, S w)
  | ConnSubscribe _ _ => (Ok w, S w)
  | ConnSend _ _ _ _ =>
      (if send_fails f then Some "connection closed" else None, w)
  | ConnDisconnect _ => (None, w)
  | SubUnsubscribe _ =>
      (if unsubscribe_fails f then Some "connection closed" else None, w)
  | SubRecv _ =>
      (Some {| Err := if receive_fails f then Some "connection closed"
                      else None;
               Body := [x7b; x7d] |}, w)
  | JsonMarshal _ =>
      (if marshal_fails f then Fail "json: unsupported type" else Ok [x7b; x7d],
       w)
  | CallHandler _ _ =>
      (if handler_fails f then Some "invalid character" else None, w)
  | TimeNow => ("2024-01-01T00:00:00Z", w)
  | Log _ _ => (tt, w)
  end.

(** The state of a transport that remembers which subscriptions it has
    cancelled. *)
Record Transport := { handles : nat; cancelled : list Subscription }.

(** An environment that treats a cancelled subscription the way the STOMP
    library does: an accepted [sub.Unsubscribe()] closes the channel
    [sub.C], and a receive from a closed channel yields nil. Nothing is
    ever refused. *)
Definition closing_channels (e : Event) (w : Transport) : Resp e * Transport :=
  let fresh := {| handles := S (handles w); cancelled := cancelled w |} in
  match e return Resp e * Transport with
  | NetDialTimeout _ _ _ => (Ok (handles w), fresh)
  | NetConnClose _ => (tt, w)
  | StompConnect _ _ _ => (Ok (handles w), fresh)
  | ConnSubscribe _ _ => (Ok (handles w), fresh)
  | ConnSend _ _ _ _ => (None, w)
  | ConnDisconnect _ => (None, w)
  | SubUnsubscribe s =>
      (None, {| handles := handles w; cancelled := s :: cancelled w |})
  | SubRecv s =>
      (if existsb (Nat.eqb s) (cancelled w) then None
       else Some {| Err := None; Body := [x7b; x7d] |}, w)
  | JsonMarshal _ => (Ok [x7b; x7d], w)
  | CallHandler _ _ => (None, w)
  | TimeNow => ("2024-01-01T00:00:00Z", w)
  | Log _ _ => (tt, w)
  end.

(** ** Concrete systems *)

Module Examples.
Import Messaging.

Definition trades : string := "topic://trades.filled".

(** The client [NewMessageClient] returns in a scripted environment
    started at 0: the network connection is handle 0, the STOMP
    connection handle 1. *)
Definition new_client : MessageClient :=
  {| conn := Some 1; subscriptions := ∅; url := "stomp://localhost:61613";
     connected := true |}.

(** After [SubscribeToTopic trades 7]: the subscription is handle 2. *)
Definition trading_consumer : Consumer :=
  {| c_topic := trades; c_sub := 2; c_handler := 7 |}.

Definition trading_system : System :=
  {| client := with_subscriptions {[trades := 2]} new_client;
     goroutines := [trading_consumer]; panicked := false |}.

(** After [Close]. *)
Definition closed_client : MessageClient := disconnected ∅ new_client.

(** An environment whose transport refuses to cancel subscriptions. *)
Definition unsubscribe_refused : Faults :=
  {| marshal_fails := false; send_fails := false; unsubscribe_fails := true;
     receive_fails := false; handler_fails := false |}.

(** An environment in which every handler call fails. *)
Definition handler_broken : Faults :=
  {| marshal_fails := false; send_fails := false; unsubscribe_fails := false;
     receive_fails := false; handler_fails := true |}.

(** An environment whose transport refuses every write. *)
Definition transport_down : Faults :=
  {| marshal_fails := false; send_fails := true; unsubscribe_fails := false;
     receive_fails := false; handler_fails := false |}.

(** A connection with room for 256 envelopes and one whose queue of one
    envelope is full. *)
Definition trade_fill : Hub.Envelope :=
  {| Hub.env_type := "trades.filled";
     Hub.env_data := VMap [("symbol", VString "BTC-USD")] |}.

Definition idle_connection : Hub.Connection :=
  {| Hub.userID := None; Hub.queue := []; Hub.capacity := 256 |}.

Definition stalled_connection : Hub.Connection :=
  {| Hub.userID := Some "alice"; Hub.queue := [trade_fill]; Hub.capacity := 1 |}.

(** Connections 0 and 1 are idle, connection 2 is stalled, and connection
    1 has been unregistered. *)
Definition busy_hub : Hub.Hub :=
  foldl Hub.serve Hub.new_hub
    [Hub.Register idle_connection; Hub.Register idle_connection;
     Hub.Register stalled_connection; Hub.Unregister 1].

Definition start_request : Gateway.StartBotRequest :=
  {| Gateway.sb_BotID := "bot-1"; Gateway.sb_Config := VNil |}.
End Examples.

(** * The rest of the gateway *)

(** ** More of what a run shows *)

(** The network connections a run obtained from [net.DialTimeout]. *)
Definition dialled (o : Obs) : option NetConn :=
  match o with
  | existT e r =>
      match e return Resp e → option NetConn with
      | NetDialTimeout _ _ _ =>
          λ r, match r with Ok nc => Some nc | Fail _ => None end
      | _ => λ _, None
      end r
  end.

(** The network connections a run closed. *)
Definition net_closed (o : Obs) : option NetConn :=
  match event_of o with
  | NetConnClose nc => Some nc
  | _ => None
  end.

(** The writes a run handed to the transport: destination, content type
    and body. *)
Definition sent (o : Obs) : option (string * string * bytes) :=
  match event_of o with
  | ConnSend _ destination contentType body =>
      Some (destination, contentType, body)
  | _ => None
  end.

(** The values a run passed to [json.Marshal]. *)
Definition marshalled (o : Obs) : option GoValue :=
  match event_of o with
  | JsonMarshal v => Some v
  | _ => None
  end.

(** How one call of [PublishToQueue] or [PublishToTopic] can end: the error
    returned and the calls made. *)
Inductive publish_outcome (mc : Messaging.MessageClient)
    (destination : string) (payload : GoValue)
    : option Error → list Obs → Prop :=
| publish_not_connected :
    Messaging.IsConnected mc = false →
    publish_outcome mc destination payload (Some ErrNotConnected) []
| publish_not_marshalled cause :
    Messaging.IsConnected mc = true →
    publish_outcome mc destination payload (Some (ErrMarshal cause))
      [obs (JsonMarshal payload) (Fail cause)]
| publish_refused e cause data :
    Messaging.IsConnected mc = true →
    e = ErrSendQueue destination cause ∨ e = ErrSendTopic destination cause →
    publish_outcome mc destination payload (Some e)
      [obs (JsonMarshal payload) (Ok data);
       obs (ConnSend (Messaging.conn mc) destination "application/json" data)
           (Some cause)]
| publish_accepted data line :
    Messaging.IsConnected mc = true →
    publish_outcome mc destination payload None
      [obs (JsonMarshal payload) (Ok data);
       obs (ConnSend (Messaging.conn mc) destination "application/json" data)
           None;
       obs (Log DebugLevel line) tt].

(** How far a publish to [destination] got, told by the kind of the error
    it returned; [refused] is the error it builds for a refused write and
    [line] the line it logs after an accepted one. *)
Definition publish_progress (mc : Messaging.MessageClient)
    (destination : string) (payload : GoValue)
    (refused : ExtError → Error) (line : string)
    (err : option Error) (tr : list Obs) : Prop :=
  match kind_of <$> err with
  | Some BrokerUnavailable =>
      err = Some ErrNotConnected ∧ Messaging.IsConnected mc = false ∧ tr = []
  | Some EncodingError =>
      Messaging.IsConnected mc = true ∧
      ∃ cause,
        err = Some (ErrMarshal cause) ∧
        tr = [obs (JsonMarshal payload) (Fail cause)]
  | Some TransportError =>
      Messaging.IsConnected mc = true ∧
      ∃ data cause,
        err = Some (refused cause) ∧
        tr = [obs (JsonMarshal payload) (Ok data);
              obs (ConnSend (Messaging.conn mc) destination
                     "application/json" data) (Some cause)]
  | Some AlreadySubscribed | Some NotSubscribed => False
  | None =>
      Messaging.IsConnected mc = true ∧
      ∃ data,
        tr = [obs (JsonMarshal payload) (Ok data);
              obs (ConnSend (Messaging.conn mc) destination
                     "application/json" data) None;
              obs (Log DebugLevel line) tt]
  end.

(** The writes the transport accepted. *)
Definition accepted (o : Obs) : option (string * string * bytes) :=
  match o with
  | existT e r =>
      match e return Resp e → option (string * string * bytes) with
      | ConnSend _ destination contentType body =>
          λ r, match r with
               | None => Some (destination, contentType, body)
               | Some _ => None
               end
      | _ => λ _, None
      end r
  end.

(** The readings of the clock. *)
Definition clock_read (o : Obs) : option string :=
  match o with
  | existT e r =>
      match e return Resp e → option string with
      | TimeNow => λ now, Some now
      | _ => λ _, None
      end r
  end.

(** ** What a command handler owes its caller *)

(** Read off a run of the handler for [queue] and [command]: which status
    goes with which situation, where writes go and what they carry. *)
Definition command_contract (queue command : string)
    (has_client bound : bool) (response : Gateway.Response) (tr : list Obs)
    : Prop :=
  (Gateway.status response = Gateway.StatusServiceUnavailable
     ↔ has_client = false) ∧
  (Gateway.status response = Gateway.StatusBadRequest
     ↔ has_client = true ∧ bound = false) ∧
  (Gateway.status response = Gateway.StatusAccepted
     ↔ length (omap accepted tr) = 1) ∧
  (Gateway.status response = Gateway.StatusInternalServerError
     ↔ ∃ line, (ErrorLevel, line) ∈ log_lines tr) ∧
  (has_client = false ∨ bound = false → tr = []) ∧
  length (omap sent tr) ≤ 1 ∧
  (∀ d ct data, (d, ct, data) ∈ omap sent tr →
     d = queue ∧ ct = "application/json") ∧
  (∀ v, v ∈ omap marshalled tr →
     ∃ fields now,
       v = VMap fields ∧ ("command", VString command) ∈ fields ∧
       now ∈ omap clock_read tr ∧ ("timestamp", VString now) ∈ fields).

(** Whether the binding of a request body succeeded. *)
Definition is_Ok {A} (r : res A) : bool :=
  match r with
  | Ok _ => true
  | Fail _ => false
  end.

(** ** cmd/gateway: the broker at startup and at shutdown *)

Module Main.
Import Messaging Gateway.

(** [NewGateway], for the field the command handlers read. *)
Definition NewGateway (messageClient : option MessageClient) : Gateway :=
  {| Gateway.messageClient := messageClient |}.

(** [main], from the connection to the broker to [NewGateway]: a failed
    connection is logged as a warning and the nil client is passed on. *)
Definition main_startup (brokerURL : string) : Prog Gateway :=
  '(messageClient, err) ← NewMessageClient brokerURL;
  match err with
  | Some e =>
      call (Log WarnLevel ("Failed to connect to message broker: "
                           +:+ Error_text e))
  | None => mret tt
  end;;
  mret (NewGateway messageClient).

(** [main], once the server has shut down: the client is closed if there
    is one. *)
Definition main_shutdown (messageClient : option MessageClient) : Prog unit :=
  match messageClient with
  | Some mc => Close mc;; mret tt
  | None => mret tt
  end.

End Main.

(** ** strings.HasPrefix and strings.TrimPrefix *)

Fixpoint HasPrefix (s prefix : string) {struct prefix} : bool :=
  match prefix with
  | EmptyString => true
  | String p prefix' =>
      match s with
      | EmptyString => false
      | String c s' => if Ascii.eqb c p then HasPrefix s' prefix' else false
      end
  end.

(** [s[n:]] for [n] within the string. *)
Fixpoint string_from (n : nat) (s : string) : string :=
  match n, s with
  | 0, _ => s
  | S n', String _ s' => string_from n' s'
  | S _, EmptyString => EmptyString
  end.

Definition TrimPrefix (s prefix : string) : string :=
  if HasPrefix s prefix then string_from (String.length prefix) s else s.

(** ** Programs over any set of calls *)

(** The free monad of [Prog], for the packages whose calls are not those
    of the messaging client. *)
Section Free.
Context {E : Type} {R : E → Type}.

Inductive Free (A : Type) : Type :=
| Pure (a : A)
| Do (e : E) (k : R e → Free A).
Arguments Pure {A} a.
Arguments Do {A} e k.

Fixpoint Free_bind {A B} (f : A → Free B) (p : Free A) : Free B :=
  match p with
  | Pure a => f a
  | Do e k => Do e (λ r, Free_bind f (k r))
  end.

Definition perform (e : E) : Free (R e) := Do e Pure.

Context {W : Type} (answer : ∀ e : E, W → R e * W).

Fixpoint exec {A} (p : Free A) (w : W) : A * W * list { e : E & R e } :=
  match p with
  | Pure a => (a, w, [])
  | Do e k =>
      let '(r, w1) := answer e w in
      let '(a, w2, tr) := exec (k r) w1 in
      (a, w2, existT e r :: tr)
  end.
End Free.
Arguments Free E R A : clear implicits.
Arguments Pure {E R A} a.
Arguments Do {E R A} e k.

#[export] Instance Free_ret {E R} : MRet (Free E R) := @Pure E R.
#[export] Instance Free_mbind {E R} : MBind (Free E R) := @Free_bind E R.

(** ** config *)

Module Config.

Record APIGatewayConfig := {
  ListenPort : Z;
  LogLevel : string;
  CorsOrigins : list string;
  JWTSecretKey : string
}.

Record MessageBroker := {
  URL : string;
  SubscribedTopics : list string;
  PublishQueues : list string
}.

Record InternalService := {
  Name : string;
  RoutePrefix : string;
  TargetURL : string
}.

Record UIService := { ui_Name : string; InternalURL : string }.

Record ServiceDependencies := {
  messageBroker : MessageBroker;
  InternalServices : list InternalService;
  uiService : UIService
}.

Record CoinbaseAPI := {
  RestURL : string;
  APIKeySecretRef : string;
  APISecretSecretRef : string
}.

Record ExternalDependencies := { coinbaseAPI : CoinbaseAPI }.

Record Config := {
  apiGatewayConfig : APIGatewayConfig;
  serviceDependencies : ServiceDependencies;
  externalDependencies : ExternalDependencies
}.

(** [var config Config] *)
Definition zero : Config :=
  {| apiGatewayConfig :=
       {| ListenPort := 0; LogLevel := ""; CorsOrigins := [];
          JWTSecretKey := "" |};
     serviceDependencies :=
       {| messageBroker :=
            {| URL := ""; SubscribedTopics := []; PublishQueues := [] |};
          InternalServices := [];
          uiService := {| ui_Name := ""; InternalURL := "" |} |};
     externalDependencies :=
       {| coinbaseAPI :=
            {| RestURL := ""; APIKeySecretRef := "";
               APISecretSecretRef := "" |} |} |}.

(** The assignments of [LoadConfig], one per field it writes. *)
Definition set_ListenPort (p : Z) (c : Config) : Config :=
  {| apiGatewayConfig :=
       {| ListenPort := p;
          LogLevel := LogLevel (apiGatewayConfig c);
          CorsOrigins := CorsOrigins (apiGatewayConfig c);
          JWTSecretKey := JWTSecretKey (apiGatewayConfig c) |};
     serviceDependencies := serviceDependencies c;
     externalDependencies := externalDependencies c |}.

Definition set_LogLevel (l : string) (c : Config) : Config :=
  {| apiGatewayConfig :=
       {| ListenPort := ListenPort (apiGatewayConfig c);
          LogLevel := l;
          CorsOrigins := CorsOrigins (apiGatewayConfig c);
          JWTSecretKey := JWTSecretKey (apiGatewayConfig c) |};
     serviceDependencies := serviceDependencies c;
     externalDependencies := externalDependencies c |}.

Definition set_JWTSecretKey (k : string) (c : Config) : Config :=
  {| apiGatewayConfig :=
       {| ListenPort := ListenPort (apiGatewayConfig c);
          LogLevel := LogLevel (apiGatewayConfig c);
          CorsOrigins := CorsOrigins (apiGatewayConfig c);
          JWTSecretKey := k |};
     serviceDependencies := serviceDependencies c;
     externalDependencies := externalDependencies c |}.

Definition set_URL (u : string) (c : Config) : Config :=
  {| apiGatewayConfig := apiGatewayConfig c;
     serviceDependencies :=
       {| messageBroker :=
            {| URL := u;
               SubscribedTopics :=
                 SubscribedTopics (messageBroker (serviceDependencies c));
               PublishQueues :=
                 PublishQueues (messageBroker (serviceDependencies c)) |};
          InternalServices := InternalServices (serviceDependencies c);
          uiService := uiService (serviceDependencies c) |};
     externalDependencies := externalDependencies c |}.

Definition set_APIKeySecretRef (k : string) (c : Config) : Config :=
  {| apiGatewayConfig := apiGatewayConfig c;
     serviceDependencies := serviceDependencies c;
     externalDependencies :=
       {| coinbaseAPI :=
            {| RestURL := RestURL (coinbaseAPI (externalDependencies c));
               APIKeySecretRef := k;
               APISecretSecretRef :=
                 APISecretSecretRef (coinbaseAPI (externalDependencies c)) |} |} |}.

Definition set_APISecretSecretRef (k : string) (c : Config) : Config :=
  {| apiGatewayConfig := apiGatewayConfig c;
     serviceDependencies := serviceDependencies c;
     externalDependencies :=
       {| coinbaseAPI :=
            {| RestURL := RestURL (coinbaseAPI (externalDependencies c));
               APIKeySecretRef :=
                 APIKeySecretRef (coinbaseAPI (externalDependencies c));
               APISecretSecretRef := k |} |} |}.

(** Handles of open files. *)
Definition File := nat.

(** The calls [LoadConfig] makes: [os.Open], [json.NewDecoder(file).Decode],
    the deferred [file.Close] and [os.Getenv]. *)
Inductive Call : Type :=
| OsOpen (path : string)
| JsonDecode (file : File)
| FileClose (file : File)
| Getenv (key : string).

Definition Answer (c : Call) : Type :=
  match c with
  | OsOpen _ => res File
  | JsonDecode _ => res Config
  | FileClose _ => unit
  | Getenv _ => string
  end.

Inductive LoadError : Type :=
| ErrOpen (cause : ExtError)
| ErrDecode (cause : ExtError).

Definition LoadError_text (e : LoadError) : string :=
  match e with
  | ErrOpen c => "failed to open config file: " +:+ c
  | ErrDecode c => "failed to decode config file: " +:+ c
  end.

(** The block of [LoadConfig] that follows the reading of the file. The
    value of [GATEWAY_PORT] is only tested for being set. *)
Definition overrides (config : Config) : Free Call Answer Config :=
  port ← perform (Getenv "GATEWAY_PORT");
  let config := if bool_decide (port ≠ "") then set_ListenPort 8080 config
                else config in
  logLevel ← perform (Getenv "LOG_LEVEL");
  let config := if bool_decide (logLevel ≠ "") then set_LogLevel logLevel config
                else config in
  jwtSecret ← perform (Getenv "JWT_SECRET");
  let config := if bool_decide (jwtSecret ≠ "")
                then set_JWTSecretKey jwtSecret config else config in
  brokerURL ← perform (Getenv "MESSAGE_BROKER_URL");
  let config := if bool_decide (brokerURL ≠ "") then set_URL brokerURL config
                else config in
  coinbaseKey ← perform (Getenv "COINBASE_API_KEY");
  let config := if bool_decide (coinbaseKey ≠ "")
                then set_APIKeySecretRef coinbaseKey config else config in
  coinbaseSecret ← perform (Getenv "COINBASE_API_SECRET");
  let config := if bool_decide (coinbaseSecret ≠ "")
                then set_APISecretSecretRef coinbaseSecret config
                else config in
  mret config.

(** [LoadConfig]. The deferred [file.Close()] runs when the function
    returns, so after the overrides on the way that succeeds. *)
Definition LoadConfig (configPath : string)
    : Free Call Answer (option Config * option LoadError) :=
  if bool_decide (configPath ≠ "") then
    r ← perform (OsOpen configPath);
    match r with
    | Fail err => mret (None, Some (ErrOpen err))
    | Ok file =>
        d ← perform (JsonDecode file);
        match d with
        | Fail err =>
            perform (FileClose file);;
            mret (None, Some (ErrDecode err))
        | Ok config =>
            config' ← overrides config;
            perform (FileClose file);;
            mret (Some config', None)
        end
    end
  else
    config' ← overrides zero;
    mret (Some config', None).

(** [GetServiceByRoutePrefix]: the first service with that prefix. *)
Fixpoint find_service (prefix : string) (services : list InternalService)
    : option InternalService :=
  match services with
  | [] => None
  | service :: rest =>
      if bool_decide (RoutePrefix service = prefix) then Some service
      else find_service prefix rest
  end.

Definition GetServiceByRoutePrefix (c : Config) (prefix : string)
    : option InternalService :=
  find_service prefix (InternalServices (serviceDependencies c)).

(** What a run of [LoadConfig] shows. *)
Definition Seen := { c : Call & Answer c }.

Definition env_read (key : string) (o : Seen) : option string :=
  match o with
  | existT c r =>
      match c return Answer c → option string with
      | Getenv k => λ v, if bool_decide (k = key) then Some v else None
      | _ => λ _, None
      end r
  end.

Definition env_key (o : Seen) : option string :=
  match projT1 o with
  | Getenv k => Some k
  | _ => None
  end.

Definition file_opened (o : Seen) : option File :=
  match o with
  | existT c r =>
      match c return Answer c → option File with
      | OsOpen _ => λ r, match r with Ok f => Some f | Fail _ => None end
      | _ => λ _, None
      end r
  end.

Definition file_closed (o : Seen) : option File :=
  match projT1 o with
  | FileClose f => Some f
  | _ => None
  end.

Definition file_decoded (o : Seen) : option Config :=
  match o with
  | existT c r =>
      match c return Answer c → option Config with
      | JsonDecode _ => λ r, match r with Ok c => Some c | Fail _ => None end
      | _ => λ _, None
      end r
  end.

(** The value of an environment variable as the run read it, empty when
    it was not read. *)
Definition env_value (key : string) (tr : list Seen) : string :=
  default "" (head (omap (env_read key) tr)).

(** The configuration the overrides started from: what the file decoded
    to, or the zero value when no file was read. *)
Definition base_config (tr : list Seen) : Config :=
  default zero (head (omap file_decoded tr)).

Definition override (value fallback : string) : string :=
  if bool_decide (value ≠ "") then value else fallback.

(** The six values [LoadConfig] reads from the environment. *)
Record EnvValues := {
  v_port : string;
  v_logLevel : string;
  v_jwtSecret : string;
  v_brokerURL : string;
  v_coinbaseKey : string;
  v_coinbaseSecret : string
}.

(** The reads as a run shows them. *)
Definition env_reads (v : EnvValues) : list Seen :=
  [existT (Getenv "GATEWAY_PORT") (v_port v);
   existT (Getenv "LOG_LEVEL") (v_logLevel v);
   existT (Getenv "JWT_SECRET") (v_jwtSecret v);
   existT (Getenv "MESSAGE_BROKER_URL") (v_brokerURL v);
   existT (Getenv "COINBASE_API_KEY") (v_coinbaseKey v);
   existT (Getenv "COINBASE_API_SECRET") (v_coinbaseSecret v)].

(** The configuration [overrides] returns when it has read these values. *)
Definition with_env (v : EnvValues) (config : Config) : Config :=
  let config := if bool_decide (v_port v ≠ "") then set_ListenPort 8080 config
                else config in
  let config := if bool_decide (v_logLevel v ≠ "")
                then set_LogLevel (v_logLevel v) config else config in
  let config := if bool_decide (v_jwtSecret v ≠ "")
                then set_JWTSecretKey (v_jwtSecret v) config else config in
  let config := if bool_decide (v_brokerURL v ≠ "")
                then set_URL (v_brokerURL v) config else config in
  let config := if bool_decide (v_coinbaseKey v ≠ "")
                then set_APIKeySecretRef (v_coinbaseKey v) config
                else config in
  if bool_decide (v_coinbaseSecret v ≠ "")
  then set_APISecretSecretRef (v_coinbaseSecret v) config else config.

End Config.

(** ** gateway: the reverse proxies *)

Module Proxy.

(** A parsed [*url.URL]. *)
Definition Target := nat.

(** The calls of the proxy handlers: [url.Parse], the logger and
    [proxy.ServeHTTP] of the reverse proxy built for a target, with the
    path the request carries when it is handed over. *)
Inductive Call : Type :=
| UrlParse (rawURL : string)
| Errorf (msg : string)
| Debugf (msg : string)
| ServeHTTP (target : Target) (path : string).

Definition Answer (c : Call) : Type :=
  match c with
  | UrlParse _ => res Target
  | Errorf _ => unit
  | Debugf _ => unit
  | ServeHTTP _ _ => unit
  end.

Abbreviation Handler := (string → Free Call Answer (option Gateway.Response)).

(** The handler [setupServiceProxy] registers, applied to the path of the
    request. *)
Definition serviceHandler (service : Config.InternalService) (target : Target)
    : Handler := λ originalPath,
  let newPath := TrimPrefix originalPath (Config.RoutePrefix service) in
  let newPath := if bool_decide (newPath = "") then "/" else newPath in
  perform (Debugf ("Proxying request from " +:+ originalPath +:+ " to "
                   +:+ Config.TargetURL service +:+ newPath));;
  perform (ServeHTTP target newPath);;
  mret None.

(** [setupServiceProxy]: the pattern it registers on the group it is
    given, with its handler; nothing is registered when the target URL
    does not parse. *)
Definition setupServiceProxy (service : Config.InternalService)
    : Free Call Answer (option (string * Handler)) :=
  r ← perform (UrlParse (Config.TargetURL service));
  match r with
  | Fail err =>
      perform (Errorf ("Invalid target URL for service "
                       +:+ Config.Name service +:+ ": " +:+ err));;
      mret None
  | Ok targetURL =>
      mret (Some (Config.RoutePrefix service +:+ "/*path",
                  serviceHandler service targetURL))
  end.

Definition proxyToUIService (config : Config.Config) : Handler :=
  λ originalPath,
  let internalURL :=
    Config.InternalURL (Config.uiService (Config.serviceDependencies config)) in
  r ← perform (UrlParse internalURL);
  match r with
  | Fail err =>
      perform (Errorf ("Invalid UI service URL: " +:+ err));;
      mret (Some {| Gateway.status := Gateway.StatusInternalServerError;
                    Gateway.body := [("error", "Service configuration error")] |})
  | Ok targetURL =>
      let newPath := TrimPrefix originalPath "/api/ui" in
      let newPath := if bool_decide (newPath = "") then "/" else newPath in
      perform (Debugf ("Proxying UI request from " +:+ originalPath +:+ " to "
                       +:+ internalURL +:+ newPath));;
      perform (ServeHTTP targetURL newPath);;
      mret None
  end.

Definition proxyToCoinbase (config : Config.Config) : Handler :=
  λ originalPath,
  let restURL :=
    Config.RestURL (Config.coinbaseAPI (Config.externalDependencies config)) in
  r ← perform (UrlParse restURL);
  match r with
  | Fail err =>
      perform (Errorf ("Invalid Coinbase API URL: " +:+ err));;
      mret (Some {| Gateway.status := Gateway.StatusInternalServerError;
                    Gateway.body :=
                      [("error", "External API configuration error")] |})
  | Ok targetURL =>
      let newPath := TrimPrefix originalPath "/external/coinbase" in
      let newPath := if bool_decide (newPath = "") then "/" else newPath in
      perform (Debugf ("Proxying Coinbase request from " +:+ originalPath
                       +:+ " to " +:+ restURL +:+ newPath));;
      perform (ServeHTTP targetURL newPath);;
      mret None
  end.

(** The requests a run handed to a reverse proxy: target and path. *)
Definition forwarded (o : { c : Call & Answer c }) : option (Target * string) :=
  match projT1 o with
  | ServeHTTP target path => Some (target, path)
  | _ => None
  end.

(** The URLs a run gave to [url.Parse], each with what it got back. *)
Definition url_parsed (o : { c : Call & Answer c })
    : option (string * res Target) :=
  match o with
  | existT c r =>
      match c return Answer c → option (string * res Target) with
      | UrlParse rawURL => λ r, Some (rawURL, r)
      | _ => λ _, None
      end r
  end.

(** Read off a run of a handler mounted at some point, for a request
    whose path is the mount point followed by [rest]: the configured URL
    is parsed first and only once; when it parses, the request goes once
    to the proxy of the parsed target, with [rest] as its path ([/] when
    [rest] is empty), and the handler writes no response of its own; when
    it does not parse, the handler answers 500 and nothing is
    forwarded. *)
Definition mounted_contract (rawURL rest : string)
    (response : option Gateway.Response) (tr : list { c : Call & Answer c })
    : Prop :=
  ∃ r after,
    tr = existT (UrlParse rawURL) r :: after ∧
    omap url_parsed after = [] ∧
    match r with
    | Ok target =>
        response = None ∧
        omap forwarded tr
          = [(target, if bool_decide (rest = "") then "/" else rest)]
    | Fail cause =>
        (∃ answered,
           response = Some answered ∧
           Gateway.status answered = Gateway.StatusInternalServerError) ∧
        omap forwarded tr = []
    end.

End Proxy.

(** ** gateway: the middleware and the login handler *)

Module Auth.

(** net/http status codes. *)
Definition StatusOK : nat := 200.
Definition StatusUnauthorized : nat := 401.


(** The header of the response, one value per name. *)
Abbreviation ResponseHeader := (gmap string string).







(** [token.Method], as far as the key function looks at it. *)
Inductive SigningMethod :=
| SigningMethodHMAC (alg : string)
| OtherSigningMethod (alg : string).

(** [*jwt.Token] as [jwt.Parse] returns it with a nil error: its [Valid]
    flag and its claims when they are [jwt.MapClaims]. *)
Record Token := { Valid : bool; Claims : option (gmap string GoValue) }.

(** A value of a claim that [generateJWTToken] puts into a token. *)
Inductive Claim :=
| ClaimString (s : string)
| ClaimStrings (l : list string)
| ClaimInt (n : Z).

(** A [time.Time], in nanoseconds since the Unix epoch. *)
Definition Time := Z.
Definition Hour : Z := (3600 * 10 ^ 9)%Z.
(** [t.Add(d)] and [t.Unix()] *)
Definition Add (t : Time) (d : Z) : Time := (t + d)%Z.
Definition Unix (t : Time) : Z := (t `div` 10 ^ 9)%Z.

(** The calls of the middleware and of the login handler: [jwt.Parse] with
    its key function, [token.SignedString] of an HS256 token with these
    claims, [time.Now] and the logger. *)
Inductive Call : Type :=
| JwtParse (tokenString : string) (keyFunc : SigningMethod → res string)
| SignedString (claims : list (string * Claim)) (key : string)
| Now
| Warnf (msg : string)
| Errorf (msg : string).

Definition Answer (c : Call) : Type :=
  match c with
  | JwtParse _ _ => res Token
  | SignedString _ _ => res string
  | Now => Time
  | Warnf _ => unit
  | Errorf _ => unit
  end.

(** How [authMiddleware] leaves the request: passed on with the values it
    stored in the context, or answered. *)
Inductive Checked :=
| Passed (context : list (string * GoValue))
| Answered (response : Gateway.Response).

Definition unauthorized (message : string) : Checked :=
  Answered {| Gateway.status := StatusUnauthorized;
              Gateway.body := [("error", message)] |}.

(** The key function given to [jwt.Parse]. *)
Definition keyFunc (config : Config.Config) (method : SigningMethod)
    : res string :=
  match method with
  | SigningMethodHMAC _ =>
      Ok (Config.JWTSecretKey (Config.apiGatewayConfig config))
  | OtherSigningMethod _ => Fail "signature is invalid"
  end.

(** [claims[key]]: nil for a missing key. *)
Definition claim (claims : gmap string GoValue) (key : string) : GoValue :=
  default VNil (claims !! key).

(** [authMiddleware] on a request with this path, method and
    [Authorization] header (empty when absent). *)
Definition authMiddleware (config : Config.Config)
    (path method authHeader : string) : Free Call Answer Checked :=
  if bool_decide (path = "/health") || bool_decide (method = "OPTIONS")
  then mret (Passed [])
  else if bool_decide (authHeader = "")
  then mret (unauthorized "Authorization header required")
  else
    let tokenString := TrimPrefix authHeader "Bearer " in
    if bool_decide (tokenString = authHeader)
    then mret (unauthorized "Invalid authorization format")
    else
      r ← perform (JwtParse tokenString (keyFunc config));
      match r with
      | Fail err =>
          perform (Warnf ("Invalid JWT token: " +:+ err));;
          mret (unauthorized "Invalid token")
      | Ok token =>
          if negb (Valid token)
          then
            perform (Warnf "Invalid JWT token: <nil>");;
            mret (unauthorized "Invalid token")
          else
            match Claims token with
            | Some claims =>
                mret (Passed [("user_id", claim claims "user_id");
                              ("username", claim claims "username");
                              ("roles", claim claims "roles")])
            | None => mret (Passed [])
            end
      end.

(** [generateJWTToken] *)
Definition generateJWTToken (config : Config.Config) (userID username : string)
    (roles : list string) : Free Call Answer (res string) :=
  t1 ← perform Now;
  t2 ← perform Now;
  let claims := [("user_id", ClaimString userID);
                 ("username", ClaimString username);
                 ("roles", ClaimStrings roles);
                 ("exp", ClaimInt (Unix (Add t1 (24 * Hour)%Z)));
                 ("iat", ClaimInt (Unix t2))] in
  @perform Call Answer
    (SignedString claims
       (Config.JWTSecretKey (Config.apiGatewayConfig config))).

(** [validateCredentials] *)
Definition validUsers : gmap string string :=
  <["admin" := "admin123"]> (<["trader" := "trader123"]>
    (<["demo" := "demo123"]> ∅)).

Definition validateCredentials (username password : string) : bool :=
  match validUsers !! username with
  | Some expectedPassword => bool_decide (expectedPassword = password)
  | None => false
  end.

Record LoginRequest := { lr_Username : string; Password : string }.
Record UserInfo := { ID : string; Username : string; Roles : list string }.
Record LoginResponse := { Token_ : string; ExpiresAt : Time; User : UserInfo }.

(** [c.JSON] of the login handler: an error object or a login response. *)
Inductive Reply :=
| ReplyError (status : nat) (message : string)
| ReplyLogin (status : nat) (response : LoginResponse).

Definition reply_status (r : Reply) : nat :=
  match r with
  | ReplyError status _ | ReplyLogin status _ => status
  end.

(** [handleLogin], given the outcome of [c.ShouldBindJSON(&request)]. *)
Definition handleLogin (config : Config.Config) (bound : res LoginRequest)
    : Free Call Answer Reply :=
  match bound with
  | Fail err => mret (ReplyError Gateway.StatusBadRequest err)
  | Ok request =>
      if negb (validateCredentials (lr_Username request) (Password request))
      then mret (ReplyError StatusUnauthorized "Invalid credentials")
      else
        let userID := "user123" in
        let roles := ["user"; "trader"] in
        r ← generateJWTToken config userID (lr_Username request) roles;
        match r with
        | Fail err =>
            perform (Errorf ("Failed to generate JWT token: " +:+ err));;
            mret (ReplyError Gateway.StatusInternalServerError
                    "Failed to generate token")
        | Ok token =>
            now ← perform Now;
            let expiresAt := Add now (24 * Hour)%Z in
            mret (ReplyLogin StatusOK
                    {| Token_ := token; ExpiresAt := expiresAt;
                       User := {| ID := userID;
                                  Username := lr_Username request;
                                  Roles := roles |} |})
        end
  end.

(** What a run shows. *)
Definition Seen := { c : Call & Answer c }.

Definition parsed (o : Seen) : option string :=
  match projT1 o with
  | JwtParse tokenString _ => Some tokenString
  | _ => None
  end.

Definition signed (o : Seen) : option (list (string * Claim) * string) :=
  match projT1 o with
  | SignedString claims key => Some (claims, key)
  | _ => None
  end.

(** The tokens [jwt.Parse] accepted: it returned no error and a token whose
    [Valid] flag is set. *)
Definition accepted_token (o : Seen) : option string :=
  match o with
  | existT c r =>
      match c return Answer c → option string with
      | JwtParse tokenString _ =>
          λ r, match r with
               | Ok token => if Valid token then Some tokenString else None
               | Fail _ => None
               end
      | _ => λ _, None
      end r
  end.

(** The tokens [SignedString] handed out. *)
Definition issued (o : Seen) : option string :=
  match o with
  | existT c r =>
      match c return Answer c → option string with
      | SignedString _ _ =>
          λ r, match r with Ok token => Some token | Fail _ => None end
      | _ => λ _, None
      end r
  end.

(** The pairs [validateCredentials] accepts. *)
Definition accounts : list (string * string) :=
  [("admin", "admin123"); ("trader", "trader123"); ("demo", "demo123")].

Definition clock (o : Seen) : option Time :=
  match o with
  | existT c r =>
      match c return Answer c → option Time with
      | Now => λ t, Some t
      | _ => λ _, None
      end r
  end.

End Auth.

(** ** More concrete environments *)

Module Samples.
Import Messaging.

(** An environment whose subscriptions deliver a receive error. *)
Definition receive_broken : Faults :=
  {| marshal_fails := false; send_fails := false; unsubscribe_fails := false;
     receive_fails := true; handler_fails := false |}.

(** A configuration file with one internal service, read by a gateway
    listening on 9090. *)
Definition portfolio : Config.InternalService :=
  {| Config.Name := "portfolio"; Config.RoutePrefix := "/v1/portfolio";
     Config.TargetURL := "http://portfolio-service:8080" |}.

Definition from_file : Config.Config :=
  {| Config.apiGatewayConfig :=
       {| Config.ListenPort := 9090; Config.LogLevel := "debug";
          Config.CorsOrigins := ["https://app.example.com"];
          Config.JWTSecretKey := "from-file" |};
     Config.serviceDependencies :=
       {| Config.messageBroker :=
            {| Config.URL := "stomp://artemis:61613";
               Config.SubscribedTopics := ["topic://trades.filled"];
               Config.PublishQueues := ["queue://commands.start_bot"] |};
          Config.InternalServices := [portfolio];
          Config.uiService :=
            {| Config.ui_Name := "ui"; Config.InternalURL := "http://ui:80" |} |};
     Config.externalDependencies :=
       {| Config.coinbaseAPI :=
            {| Config.RestURL := "https://api.coinbase.com";
               Config.APIKeySecretRef := "key-ref";
               Config.APISecretSecretRef := "secret-ref" |} |} |}.

(** A host on which every path opens and decodes to [from_file], with
    [GATEWAY_PORT=7000] and [JWT_SECRET=s3cret] in the environment of the
    process and no other variable set. *)
Definition deployed (c : Config.Call) (w : nat) : Config.Answer c * nat :=
  match c return Config.Answer c * nat with
  | Config.OsOpen _ => (Ok w, S w)
  | Config.JsonDecode _ => (Ok from_file, w)
  | Config.FileClose _ => (tt, w)
  | Config.Getenv key =>
      (if bool_decide (key = "GATEWAY_PORT") then "7000"
       else if bool_decide (key = "JWT_SECRET") then "s3cret"
       else "", w)
  end.

(** A proxy environment in which every URL parses. *)
Definition proxying (c : Proxy.Call) (w : nat) : Proxy.Answer c * nat :=
  match c return Proxy.Answer c * nat with
  | Proxy.UrlParse _ => (Ok w, S w)
  | Proxy.Errorf _ => (tt, w)
  | Proxy.Debugf _ => (tt, w)
  | Proxy.ServeHTTP _ _ => (tt, w)
  end.

(** An environment for the login handler: every signature succeeds and
    the clock advances by one second at each reading. *)
Definition signing (c : Auth.Call) (w : Z) : Auth.Answer c * Z :=
  match c return Auth.Answer c * Z with
  | Auth.JwtParse tokenString _ =>
      (if bool_decide (tokenString = "signed")
       then Ok {| Auth.Valid := true; Auth.Claims := None |}
       else Fail "token is malformed", w)
  | Auth.SignedString _ _ => (Ok "signed", w)
  | Auth.Now => (w, (w + 10 ^ 9)%Z)
  | Auth.Warnf _ => (tt, w)
  | Auth.Errorf _ => (tt, w)
  end.

Definition admin_login : Auth.LoginRequest :=
  {| Auth.lr_Username := "admin"; Auth.Password := "admin123" |}.

End Samples.

(** * Properties *)

(** ** Running programs *)

Section RunFacts.
Context {W : Type} (answer : ∀ e : Event, W → Resp e * W).

Lemma run_bind {A B} (p : Prog A) (f : A → Prog B) w :
  run answer (p ≫= f) w =
    let '(a, w1, tr1) := run answer p w in
    let '(b, w2, tr2) := run answer (f a) w1 in
    (b, w2, tr1 ++ tr2).
Proof.
  revert w. induction p as [a | e k IH]; intros w; simpl.
  - by destruct (run answer (f a) w) as [[b w2] tr2].
  - destruct (answer e w) as [r w1].
    change (Prog_bind f (k r)) with (k r ≫= f). rewrite IH.
    destruct (run answer (k r) w1) as [[a w2] tr1].
    by destruct (run answer (f a) w2) as [[b w3] tr2].
Qed.

Lemma run_ret {A} (a : A) w : run answer (mret a) w = (a, w, []).
Proof. done. Qed.

Lemma run_call_bind {B} (e : Event) (f : Resp e → Prog B) w :
  run answer (call e ≫= f) w =
    let '(r, w1) := answer e w in
    let '(b, w2, tr) := run answer (f r) w1 in
    (b, w2, obs e r :: tr).
Proof. done. Qed.
End RunFacts.

(** Unfolds one answered call of the program being run. *)
Ltac ask answer :=
  rewrite ?run_call_bind;
  match goal with
  | |- context [answer ?e ?w] =>
      let r := fresh "r" in
      let w' := fresh "w" in
      let E := fresh "E" in
      destruct (answer e w) as [r w'] eqn:E; simpl in r
  end.

Section PublishContract.
Import Messaging.
Context {W : Type} (answer : ∀ e : Event, W → Resp e * W).

(** C2. [publish(destination, payload)], for both [PublishToQueue] and
    [PublishToTopic]: on a session that is not connected it fails with
    the not-connected error (BrokerUnavailable) before anything is
    serialized or handed to the transport, leaving the environment as
    it was; on a connected session whose payload [json.Marshal] rejects
    it fails with the marshal error (EncodingError) and nothing is sent;
    and when it returns nil the payload was serialized and the bytes
    were passed to [conn.Send] for that destination, which accepted
    them. *)
Theorem publish_contract
    (publish : string → GoValue → MessageClient → Prog (option Error))
    (destination : string) (payload : GoValue) (mc : MessageClient) (w : W) :
  publish = PublishToQueue ∨ publish = PublishToTopic →
  let '(err, w', tr) := run answer (publish destination payload mc) w in
  (IsConnected mc = false →
     err = Some ErrNotConnected ∧ kind_of <$> err = Some BrokerUnavailable ∧
     w' = w ∧ tr = []) ∧
  (IsConnected mc = true →
     ∀ cause, (answer (JsonMarshal payload) w).1 = Fail cause →
     err = Some (ErrMarshal cause) ∧ kind_of <$> err = Some EncodingError ∧
     tr = [obs (JsonMarshal payload) (Fail cause)]) ∧
  (err = None →
     IsConnected mc = true ∧
     ∃ data line,
       tr = [obs (JsonMarshal payload) (Ok data);
             obs (ConnSend (conn mc) destination "application/json" data) None;
             obs (Log DebugLevel line) tt]).
Proof.
  intros [-> | ->]; unfold PublishToQueue, PublishToTopic;
    (destruct (IsConnected mc) eqn:Hc; simpl;
     [ask answer; destruct r as [data | cause]; simpl;
      [ask answer; destruct r as [e |]; simpl;
       [| ask answer; destruct r] |]
     |]);
    (split_and!; [done || by intros _ | | ]);
    try (intros _ cause' Hm; simpl in Hm; by simplify_eq);
    try (intros ?; by simplify_eq);
    try (intros _; split; [done|]; by eexists _, _).
Qed.
End PublishContract.

Section Connect.
Import Messaging.
Context {W : Type} (answer : ∀ e : Event, W → Resp e * W).

Lemma JoinHostPort_artemis :
  JoinHostPort "artemis-service" "61613" = "artemis-service:61613".
Proof. reflexivity. Qed.

(** [connect] neither reads nor writes the [url] field, so what it asks
    of the environment does not depend on the client it is given. *)
Lemma connect_run mc w :
  ∃ r rest,
    (run answer (connect mc) w).2 =
      obs (NetDialTimeout "tcp" "artemis-service:61613" 10) r :: rest ∧
    Forall (λ o, ∀ network address seconds,
              event_of o ≠ NetDialTimeout network address seconds) rest.
Proof.
  unfold connect. rewrite JoinHostPort_artemis. simpl. ask answer.
  exists r. destruct r as [netConn | err]; simpl.
  - ask answer. destruct r as [c | err]; simpl.
    + ask answer. eexists. split; [done|].
      repeat constructor; by intros.
    + ask answer. eexists. split; [done|].
      repeat constructor; by intros.
  - eexists. by split.
Qed.

(** C10. Whatever broker URL [NewMessageClient] is given, the one
    address it dials is TCP [artemis-service:61613] (with a timeout of
    ten seconds), and the whole exchange with the environment, the
    error returned and the connection obtained are the same for any two
    URLs: the URL is only stored in the client. *)
Theorem dial_address_fixed (brokerURL : string) (w : W) :
  (∃ r rest,
     (run answer (NewMessageClient brokerURL) w).2 =
       obs (NetDialTimeout "tcp" "artemis-service:61613" 10) r :: rest ∧
     Forall (λ o, ∀ network address seconds,
               event_of o ≠ NetDialTimeout network address seconds) rest) ∧
  (∀ otherURL,
     let '(c1, err1, w1, tr1) := run answer (NewMessageClient brokerURL) w in
     let '(c2, err2, w2, tr2) := run answer (NewMessageClient otherURL) w in
     tr1 = tr2 ∧ w1 = w2 ∧ err1 = err2 ∧
     conn <$> c1 = conn <$> c2 ∧ connected <$> c1 = connected <$> c2 ∧
     url <$> c1 = (λ _, brokerURL) <$> c2).
Proof.
  split.
  - unfold NewMessageClient. rewrite run_bind.
    destruct (connect_run {| conn := None; subscriptions := ∅;
      url := brokerURL; connected := false |} w) as (r & rest & Htr & Hrest).
    destruct (run answer (connect _) w) as [[[mc' err] w'] tr]. simpl in Htr.
    subst tr. destruct err; simpl; exists r, rest;
      by rewrite app_nil_r.
  - intros otherURL. unfold NewMessageClient, connect.
    rewrite JoinHostPort_artemis. simpl. ask answer.
    destruct r as [netConn | err]; simpl; [|done].
    ask answer. destruct r as [c | err]; simpl; by ask answer.
Qed.
End Connect.

(** ** The subscription manager *)

Section Subscriptions.
Import Messaging.
Context {W : Type} (answer : ∀ e : Event, W → Resp e * W).

Lemma Close_guard mc :
  negb (connected mc) || bool_decide (conn mc = None) = negb (IsConnected mc).
Proof.
  unfold IsConnected. by destruct (connected mc), (bool_decide _).
Qed.

Lemma IsConnected_with_subscriptions m mc :
  IsConnected (with_subscriptions m mc) = IsConnected mc.
Proof. done. Qed.

Lemma IsConnected_disconnected m mc : IsConnected (disconnected m mc) = false.
Proof. done. Qed.

(** *** SubscribeToTopic *)

Lemma subscribe_run topic handler mc w :
  let '(mc', started, err, w', tr) :=
    run answer (SubscribeToTopic topic handler mc) w in
  (is_Some err ∧ mc' = mc ∧ started = None ∧
     (tr = [] ∨
      ∃ cause, tr = [obs (ConnSubscribe (conn mc) topic) (Fail cause)])) ∨
  (err = None ∧ IsConnected mc = true ∧ subscriptions mc !! topic = None ∧
   ∃ sub,
     mc' = with_subscriptions (<[topic := sub]> (subscriptions mc)) mc ∧
     started = Some {| c_topic := topic; c_sub := sub; c_handler := handler |} ∧
     tr = [obs (ConnSubscribe (conn mc) topic) (Ok sub);
           obs (Log InfoLevel ("Subscribed to topic: " +:+ topic)) tt]).
Proof.
  unfold SubscribeToTopic. destruct (IsConnected mc) eqn:Hc; simpl.
  - destruct (subscriptions mc !! topic) as [old |] eqn:Hold; simpl.
    + left. split_and!; [done..|]. by left.
    + ask answer. destruct r as [sub | cause]; simpl.
      * ask answer. destruct r. right. split_and!; [done..|]. by exists sub.
      * left. split_and!; [done..|]. right. by exists cause.
  - left. split_and!; [done..|]. by left.
Qed.

Lemma subscribe_already topic handler mc sub w :
  IsConnected mc = true →
  subscriptions mc !! topic = Some sub →
  run answer (SubscribeToTopic topic handler mc) w =
    (mc, None, Some (ErrAlreadySubscribed topic), w, []).
Proof.
  intros Hc Hsub. unfold SubscribeToTopic. by rewrite Hc, Hsub.
Qed.

(** *** Unsubscribe *)

Lemma unsubscribe_absent topic mc w :
  subscriptions mc !! topic = None →
  run answer (Unsubscribe topic mc) w =
    (mc, Some (ErrNotSubscribed topic), w, []).
Proof. intros H. unfold Unsubscribe. by rewrite H. Qed.

Lemma unsubscribe_present topic mc sub w :
  subscriptions mc !! topic = Some sub →
  run answer (Unsubscribe topic mc) w =
    match answer (SubUnsubscribe sub) w with
    | (Some e, w1) =>
        (mc, Some (ErrUnsubscribe topic e), w1,
         [obs (SubUnsubscribe sub) (Some e)])
    | (None, w1) =>
        (with_subscriptions (delete topic (subscriptions mc)) mc, None,
         (answer (Log InfoLevel ("Unsubscribed from topic: " +:+ topic)) w1).2,
         [obs (SubUnsubscribe sub) None;
          obs (Log InfoLevel ("Unsubscribed from topic: " +:+ topic)) tt])
    end.
Proof.
  intros H. unfold Unsubscribe. rewrite H. simpl.
  destruct (answer (SubUnsubscribe sub) w) as [[e |] w1]; simpl; [done|].
  by destruct (answer (Log _ _) w1) as [[] w2].
Qed.

(** *** Close *)

Lemma unsubscribe_all_run entries m w :
  let '(m', w', tr) := run answer (unsubscribe_all entries m) w in
  m' = foldl (λ acc e, delete e.1 acc) m entries ∧
  omap unsubscribed tr = entries.*2 ∧
  Forall (λ o, ∀ c, event_of o ≠ ConnDisconnect c) tr ∧
  Forall (λ o, opened o = None) tr.
Proof.
  revert m w. induction entries as [| [topic sub] rest IH]; intros m w.
  - done.
  - simpl. ask answer. ask answer.
    specialize (IH (delete topic m) w1).
    destruct (run answer (unsubscribe_all rest (delete topic m)) w1)
      as [[m' w'] tr].
    destruct IH as (-> & Hun & Hnd & Hop).
    split_and!; [done | by simpl; f_equal | by repeat constructor |].
    by repeat constructor.
Qed.

Lemma foldl_delete_lookup (entries : list (string * Subscription))
    (m : gmap string Subscription) k :
  foldl (λ acc e, delete e.1 acc) m entries !! k =
    if decide (k ∈ entries.*1) then None else m !! k.
Proof.
  revert m. induction entries as [| [topic sub] rest IH]; intros m.
  - destruct (decide (k ∈ [].*1)) as [H |]; [by apply elem_of_nil in H | done].
  - cbn [foldl fst]. rewrite IH. rewrite fmap_cons. cbn [fst].
    destruct (decide (k ∈ rest.*1)) as [Hin | Hnin].
    + rewrite decide_True; [done | by right].
    + destruct (decide (k = topic)) as [-> | Hne].
      * rewrite decide_True by left. apply lookup_delete_eq.
      * rewrite decide_False by (by intros [? | ?]%elem_of_cons).
        by apply lookup_delete_ne.
Qed.

Lemma foldl_delete_all (m : gmap string Subscription) :
  foldl (λ acc e, delete e.1 acc) m (map_to_list m) = ∅.
Proof.
  apply map_eq; intros k. rewrite foldl_delete_lookup, lookup_empty.
  case_decide as Hk; [done|].
  destruct (m !! k) as [sub |] eqn:Hm; [|done].
  exfalso. apply Hk. apply list_elem_of_fmap. exists (k, sub).
  split; [done|]. by apply elem_of_map_to_list.
Qed.

Lemma close_disconnected mc w :
  IsConnected mc = false → run answer (Close mc) w = (mc, w, []).
Proof. intros H. unfold Close. by rewrite Close_guard, H. Qed.

Lemma close_connected mc w :
  IsConnected mc = true →
  let '(mc', w', tr) := run answer (Close mc) w in
  mc' = disconnected ∅ mc ∧
  omap unsubscribed tr = (map_to_list (subscriptions mc)).*2 ∧
  Forall (λ o, opened o = None) tr ∧
  ∃ before r,
    tr = before ++ [obs (ConnDisconnect (conn mc)) r;
                    obs (Log InfoLevel "Disconnected from message broker") tt] ∧
    Forall (λ o, ∀ c, event_of o ≠ ConnDisconnect c) before.
Proof.
  intros H. unfold Close. rewrite Close_guard, H. simpl. rewrite run_bind.
  pose proof (unsubscribe_all_run (map_to_list (subscriptions mc))
                (subscriptions mc) w) as Hall.
  destruct (run answer (unsubscribe_all _ _) w) as [[m w1] tr1].
  destruct Hall as (-> & Hun & Hnd & Hop). rewrite foldl_delete_all.
  simpl. ask answer. ask answer. destruct r0. split_and!.
  - done.
  - rewrite omap_app. simpl. by rewrite app_nil_r.
  - apply Forall_app. split; [done|]. by repeat constructor.
  - by exists tr1, r.
Qed.
End Subscriptions.

(** ** Steps of the system *)

Section Steps.
Import Messaging.
Context {W : Type} (answer : ∀ e : Event, W → Resp e * W).

Lemma consumer_iteration_run c w :
  let '(ctl, w', tr) := run answer (consumer_iteration c) w in
  ∃ read rest,
    tr = obs (SubRecv (c_sub c)) read :: rest ∧
    match read with
    | None => ctl = Panic ∧ rest = []
    | Some msg =>
        match Err msg with
        | Some e =>
            ctl = Break ∧
            rest = [obs (Log ErrorLevel ("Error receiving message from topic "
                                         +:+ c_topic c +:+ ": " +:+ e)) tt]
        | None =>
            ctl = Continue ∧
            ∃ r, rest = obs (CallHandler (c_handler c) (Body msg)) r ::
                   match r with
                   | Some e =>
                       [obs (Log ErrorLevel
                               ("Error handling message from topic "
                                +:+ c_topic c +:+ ": " +:+ e)) tt]
                   | None => []
                   end
        end
    end.
Proof.
  unfold consumer_iteration. simpl. ask answer.
  destruct r as [msg |]; simpl; [|by exists None, []].
  destruct (Err msg) as [e |] eqn:He; simpl.
  - ask answer. destruct r. exists (Some msg); eexists. rewrite He.
    by split_and!.
  - ask answer. destruct r as [e |]; simpl.
    + ask answer. destruct r. exists (Some msg); eexists. rewrite He.
      split_and!; [done..|]. by exists (Some e).
    + exists (Some msg); eexists. rewrite He. split_and!; [done..|].
      by exists None.
Qed.

(** What a step does to the client and to the goroutines. *)
Lemma step_change op s w :
  let s' := (run answer (step op s) w).1.1 in
  client_change (client s) (client s').
Proof.
  destruct op as [topic handler | queue message | topic message | topic
                 | | | i]; cbn [step]; cbv zeta.
  - rewrite run_bind. pose proof (subscribe_run answer topic handler (client s) w) as H.
    destruct (run answer (SubscribeToTopic _ _ _) w)
      as [[[[mc' started] err] w'] tr].
    destruct H as [(_ & -> & _) | (_ & Hc & Hnone & sub & -> & _)]; simpl.
    + constructor.
    + by constructor.
  - rewrite run_bind.
    destruct (run answer (PublishToQueue _ _ _) w) as [[err w'] tr].
    constructor.
  - rewrite run_bind.
    destruct (run answer (PublishToTopic _ _ _) w) as [[err w'] tr].
    constructor.
  - rewrite run_bind.
    destruct (subscriptions (client s) !! topic) as [sub |] eqn:Hsub.
    + rewrite (unsubscribe_present answer _ _ _ _ Hsub).
      destruct (answer (SubUnsubscribe sub) w) as [[e |] w1]; simpl;
        constructor.
    + rewrite (unsubscribe_absent answer _ _ _ Hsub). constructor.
  - constructor.
  - rewrite run_bind. destruct (IsConnected (client s)) eqn:Hc.
    + pose proof (close_connected answer (client s) w Hc) as H.
      destruct (run answer (Close _) w) as [[mc' w'] tr].
      destruct H as (-> & _). by constructor.
    + rewrite (close_disconnected answer _ _ Hc). constructor.
  - destruct (goroutines s !! i) as [c |]; [|constructor].
    rewrite run_bind.
    destruct (run answer (consumer_iteration c) w) as [[[| |] w'] tr]; simpl.
    + constructor.
    + unfold consumer_cleanup. simpl. ask answer. simpl. constructor.
    + constructor.
Qed.

Lemma change_tidy mc mc' : client_change mc mc' → tidy mc → tidy mc'.
Proof.
  unfold tidy. intros [| topic sub Hc _ | topic | Hc] Hmc; simpl.
  - done.
  - rewrite IsConnected_with_subscriptions. congruence.
  - rewrite IsConnected_with_subscriptions. intros Hc.
    rewrite (Hmc Hc). apply delete_empty.
  - done.
Qed.

Lemma change_stays_disconnected mc mc' :
  client_change mc mc' → IsConnected mc = false → IsConnected mc' = false.
Proof.
  intros [| topic sub Hc _ | topic | Hc] Hmc;
    rewrite ?IsConnected_with_subscriptions; congruence.
Qed.

Lemma step_consumed op s w :
  consumed s → consumed (run answer (step op s) w).1.1.
Proof.
  intros Hs.
  destruct op as [topic handler | queue message | topic message | topic
                 | | | i]; cbn [step].
  - rewrite run_bind.
    pose proof (subscribe_run answer topic handler (client s) w) as H.
    destruct (run answer (SubscribeToTopic _ _ _) w)
      as [[[[mc' started] err] w'] tr].
    destruct H as [(_ & -> & -> & _) | (_ & _ & _ & sub & -> & -> & _)]; simpl.
    + by destruct s.
    + intros topic' sub'; simpl. destruct (decide (topic = topic')) as [<- |].
      * rewrite lookup_insert_eq. intros [= <-]. exists handler.
        apply elem_of_app. right. by left.
      * rewrite lookup_insert_ne by done. intros [h Hin]%Hs.
        exists h. apply elem_of_app. by left.
  - rewrite run_bind.
    by destruct (run answer (PublishToQueue _ _ _) w) as [[err w'] tr].
  - rewrite run_bind.
    by destruct (run answer (PublishToTopic _ _ _) w) as [[err w'] tr].
  - rewrite run_bind.
    destruct (subscriptions (client s) !! topic) as [sub |] eqn:Hsub.
    + rewrite (unsubscribe_present answer _ _ _ _ Hsub).
      destruct (answer (SubUnsubscribe sub) w) as [[e |] w1]; simpl.
      * by destruct s.
      * intros topic' sub'; simpl. intros [_ Hl]%lookup_delete_Some.
        by apply Hs.
    + rewrite (unsubscribe_absent answer _ _ _ Hsub). by destruct s.
  - done.
  - rewrite run_bind. destruct (IsConnected (client s)) eqn:Hc.
    + pose proof (close_connected answer (client s) w Hc) as H.
      destruct (run answer (Close _) w) as [[mc' w'] tr].
      destruct H as (-> & _). intros topic' sub'; simpl.
      by rewrite lookup_empty.
    + rewrite (close_disconnected answer _ _ Hc). by destruct s.
  - destruct (goroutines s !! i) as [c |] eqn:Hi; [|done].
    rewrite run_bind.
    destruct (run answer (consumer_iteration c) w) as [[[| |] w'] tr]; simpl.
    + done.
    + unfold consumer_cleanup. simpl. ask answer. simpl.
      intros topic' sub'; simpl. intros [Hne Hl]%lookup_delete_Some.
      destruct (Hs _ _ Hl) as [h Hin]. exists h.
      rewrite (delete_Permutation _ _ _ Hi) in Hin.
      apply elem_of_cons in Hin as [Heq | Hin]; [|done].
      subst c. by simpl in Hne.
    + exact Hs.
Qed.

Lemma new_client_fresh brokerURL w mc w' tr :
  run answer (NewMessageClient brokerURL) w = (Some mc, None, w', tr) →
  subscriptions mc = ∅ ∧ IsConnected mc = true ∧ url mc = brokerURL.
Proof.
  unfold NewMessageClient, connect. simpl. ask answer.
  destruct r as [netConn | err]; simpl; [|done].
  ask answer. destruct r as [c | err]; simpl; ask answer; [|done].
  by intros [= <- _ _].
Qed.

Lemma reachable_invariants s : reachable answer s → tidy s.(client) ∧ consumed s.
Proof.
  induction 1
    as [brokerURL w mc w' tr Hnew | s op w s' w' tr _ [IHt IHc] _ Hrun].
  - apply new_client_fresh in Hnew as (Hsub & _ & _). split.
    + by intros _.
    + intros topic sub; simpl. by rewrite Hsub, lookup_empty.
  - pose proof (step_change op s w) as Hch.
    pose proof (step_consumed op s w IHc) as Hco.
    rewrite Hrun in Hch, Hco. simpl in Hch, Hco.
    split; [by eapply change_tidy | done].
Qed.

Lemma reachable_steps ops s w :
  reachable answer s → reachable answer (run answer (steps ops s) w).1.1.
Proof.
  revert s w. induction ops as [| op rest IH]; intros s w Hs; [done|].
  cbn [steps]. destruct (panicked s) eqn:Hp; [done|]. rewrite run_bind.
  destruct (run answer (step op s) w) as [[s1 w1] tr1] eqn:Hstep.
  specialize (IH s1 w1 (reachable_step answer _ _ _ _ _ _ Hs Hp Hstep)).
  by destruct (run answer (steps rest s1) w1) as [[s2 w2] tr2].
Qed.
End Steps.

(** ** Subscriptions open at the transport *)

Section Transport.
Import Messaging.
Context {W : Type} (answer : ∀ e : Event, W → Resp e * W).

Lemma open_after_app tr1 tr2 open :
  open_after (tr1 ++ tr2) open = open_after tr2 (open_after tr1 open).
Proof. apply foldl_app. Qed.

Lemma track_sublist open o : opened o = None → track open o `sublist_of` open.
Proof.
  intros Ho. unfold track. rewrite Ho.
  destruct (closed o); [apply sublist_filter | done].
Qed.

Lemma open_after_sublist tr open :
  Forall (λ o, opened o = None) tr → open_after tr open `sublist_of` open.
Proof.
  revert open. induction tr as [| o tr IH]; intros open Hall; [done|].
  apply Forall_cons in Hall as [Ho Hall]. simpl.
  etrans; [by apply IH | by apply track_sublist].
Qed.

Lemma NoDup_topics_sublist (open open' : list (string * Subscription)) :
  open' `sublist_of` open → NoDup open.*1 → NoDup open'.*1.
Proof.
  intros Hsub Hnd. eapply sublist_NoDup; [done|]. by apply fmap_sublist.
Qed.

Lemma publish_queue_opens_nothing queue message mc w open :
  open_after (run answer (PublishToQueue queue message mc) w).2 open = open.
Proof.
  unfold PublishToQueue. destruct (IsConnected mc); simpl; [|done].
  ask answer. destruct r as [data | cause]; simpl; [|done].
  ask answer. destruct r as [e |]; simpl; [done|]. by ask answer.
Qed.

Lemma publish_topic_opens_nothing topic message mc w open :
  open_after (run answer (PublishToTopic topic message mc) w).2 open = open.
Proof.
  unfold PublishToTopic. destruct (IsConnected mc); simpl; [|done].
  ask answer. destruct r as [data | cause]; simpl; [|done].
  ask answer. destruct r as [e |]; simpl; [done|]. by ask answer.
Qed.

(** A call keeps the client's knowledge of the transport accurate. *)
Lemma step_tracked op s w open :
  is_call op = true →
  tracked open (client s) →
  let '(s', _, tr) := run answer (step op s) w in
  tracked (open_after tr open) (client s').
Proof.
  intros Hcall [Hnd Hin].
  destruct op as [topic handler | queue message | topic message | topic
                 | | | i]; [| | | | | | done]; cbn [step].
  - rewrite run_bind.
    pose proof (subscribe_run answer topic handler (client s) w) as H.
    destruct (run answer (SubscribeToTopic _ _ _) w)
      as [[[[mc' started] err] w'] tr].
    simpl. rewrite app_nil_r.
    destruct H as [(_ & -> & _ & [-> | [cause ->]])
                  | (_ & Hc & Hnone & sub & -> & _ & ->)]; [done | done |].
    specialize (Hin Hc). split.
    + simpl. constructor; [|done].
      intros ([t sub'] & Ht & Hel)%list_elem_of_fmap. simpl in Ht. subst t.
      apply Hin in Hel. congruence.
    + intros _ t sub' [[= -> ->] | Hel]%elem_of_cons; simpl.
      * apply lookup_insert_eq.
      * rewrite lookup_insert_ne; [by apply Hin|].
        intros <-. apply Hin in Hel. congruence.
  - rewrite run_bind.
    pose proof (publish_queue_opens_nothing queue message (client s) w open) as H.
    destruct (run answer (PublishToQueue _ _ _) w) as [[err w'] tr].
    simpl in *. by rewrite app_nil_r, H.
  - rewrite run_bind.
    pose proof (publish_topic_opens_nothing topic message (client s) w open) as H.
    destruct (run answer (PublishToTopic _ _ _) w) as [[err w'] tr].
    simpl in *. by rewrite app_nil_r, H.
  - rewrite run_bind.
    destruct (subscriptions (client s) !! topic) as [sub |] eqn:Hsub.
    + rewrite (unsubscribe_present answer _ _ _ _ Hsub).
      destruct (answer (SubUnsubscribe sub) w) as [[e |] w1]; simpl; [done|].
      split.
      * eapply NoDup_topics_sublist; [|done]. apply sublist_filter.
      * rewrite IsConnected_with_subscriptions. intros Hc t sub'.
        intros [Hne Hel]%list_elem_of_filter. simpl in Hne.
        apply (Hin Hc) in Hel. simpl. rewrite lookup_delete_ne; [done|].
        intros <-. congruence.
    + by rewrite (unsubscribe_absent answer _ _ _ Hsub).
  - done.
  - rewrite run_bind. destruct (IsConnected (client s)) eqn:Hc.
    + pose proof (close_connected answer (client s) w Hc) as H.
      destruct (run answer (Close _) w) as [[mc' w'] tr].
      destruct H as (-> & _ & Hop & _). simpl. rewrite app_nil_r. split.
      * eapply NoDup_topics_sublist; [|done]. by apply open_after_sublist.
      * by rewrite IsConnected_disconnected.
    + rewrite (close_disconnected answer _ _ Hc). simpl.
      split; [done|]. intros Hc'. congruence.
Qed.

Lemma steps_tracked ops s w open :
  Forall (λ op, is_call op = true) ops →
  tracked open (client s) →
  let '(s', _, tr) := run answer (steps ops s) w in
  tracked (open_after tr open) (client s').
Proof.
  revert s w open. induction ops as [| op rest IH]; intros s w open Hall Ht.
  - done.
  - apply Forall_cons in Hall as [Hop Hall]. cbn [steps].
    destruct (panicked s); [done|]. rewrite run_bind.
    pose proof (step_tracked op s w open Hop Ht) as Hstep.
    destruct (run answer (step op s) w) as [[s1 w1] tr1].
    specialize (IH s1 w1 _ Hall Hstep).
    destruct (run answer (steps rest s1) w1) as [[s2 w2] tr2].
    by rewrite open_after_app.
Qed.
End Transport.

(** ** The claims about subscriptions and the session *)

Section Session.
Import Messaging.
Context {W : Type} (answer : ∀ e : Event, W → Resp e * W).

(** C3. Once a topic has an entry in the subscription map of a reachable
    system, a further [SubscribeToTopic] for that topic, with any
    handler, returns the already-subscribed error without a single call
    to the environment; client, map and goroutines are left exactly as
    they were, and the goroutine consuming the stored subscription is
    still among the running ones. *)
Theorem subscribe_twice (s : System) (topic : string) (sub : Subscription)
    (handler2 : Handler) (w : W) :
  reachable answer s →
  subscriptions (client s) !! topic = Some sub →
  run answer (SubscribeToTopic topic handler2 (client s)) w =
    (client s, None, Some (ErrAlreadySubscribed topic), w, []) ∧
  kind_of (ErrAlreadySubscribed topic) = AlreadySubscribed ∧
  run answer (step (CallSubscribeToTopic topic handler2) s) w = (s, w, []) ∧
  ∃ handler1,
    {| c_topic := topic; c_sub := sub; c_handler := handler1 |}
      ∈ goroutines s.
Proof.
  intros [Htidy Hcons]%reachable_invariants Hsub.
  assert (IsConnected (client s) = true) as Hc.
  { destruct (IsConnected (client s)) eqn:Hc; [done|].
    rewrite (Htidy Hc), lookup_empty in Hsub. done. }
  pose proof (subscribe_already answer topic handler2 _ _ w Hc Hsub) as Hrun.
  split_and!; [done | done | | by apply Hcons].
  cbn [step]. rewrite run_bind, Hrun. by destruct s.
Qed.

(** C4, as the code has it by design. [Unsubscribe] of a topic without
    an entry returns the not-subscribed error, asks nothing of the
    environment and leaves the client as it was. For a topic with an entry
    it calls [sub.Unsubscribe()] once, on the stored subscription, and
    nothing else of the transport; when the transport refuses, the
    wrapped error is returned, nothing is logged and the client, its
    subscription map included, is left as it was. *)
Theorem unsubscribe_contract (mc : MessageClient) (topic : string) (w : W) :
  let '(mc', err, w', tr) := run answer (Unsubscribe topic mc) w in
  (subscriptions mc !! topic = None →
     err = Some (ErrNotSubscribed topic) ∧
     kind_of <$> err = Some NotSubscribed ∧
     mc' = mc ∧ w' = w ∧ tr = []) ∧
  (∀ sub, subscriptions mc !! topic = Some sub →
     omap unsubscribed tr = [sub] ∧
     Forall (λ o, to_transport (event_of o) = true →
                  event_of o = SubUnsubscribe sub) tr ∧
     ∀ e, (answer (SubUnsubscribe sub) w).1 = Some e →
       err = Some (ErrUnsubscribe topic e) ∧
       kind_of <$> err = Some TransportError ∧
       mc' = mc ∧
       subscriptions mc' !! topic = Some sub ∧
       tr = [obs (SubUnsubscribe sub) (Some e)]).
Proof.
  destruct (subscriptions mc !! topic) as [sub |] eqn:Hsub.
  - rewrite (unsubscribe_present answer _ _ _ _ Hsub).
    destruct (answer (SubUnsubscribe sub) w) as [[e |] w1] eqn:Hans;
      (split; [done|]); intros sub' [= <-]; simpl.
    + split_and!; [done | repeat constructor; by intros |].
      intros e'. rewrite Hans. simpl. intros [= <-].
      split_and!; [done | done | done | exact Hsub | done].
    + split_and!; [done | repeat constructor; by intros |].
      intros e'. rewrite Hans. by intros [=].
  - rewrite (unsubscribe_absent answer _ _ _ Hsub). by split.
Qed.

(** C5. After any sequence of steps from a new client the active set,
    read as the list of its entries, names no topic twice: two entries
    with the same topic are the same entry. [SubscribeToTopic] keeps it so
    by adding an entry only for a topic that has none. When the steps are
    calls of the exported methods (subscribe, unsubscribe, close, publish,
    isConnected) the same holds at the transport: no two subscriptions
    open there share a topic, and while the client is connected each of
    them is the entry of its topic in the active set. *)
Theorem one_subscription_per_topic (brokerURL : string) (w : W)
    (mc : MessageClient) (w1 : W) (tr0 : list Obs) (ops : list Op) (w2 : W) :
  run answer (NewMessageClient brokerURL) w = (Some mc, None, w1, tr0) →
  let '(s, _, tr) :=
    run answer
      (steps ops {| client := mc; goroutines := []; panicked := false |})
      w2 in
  let active := map_to_list (subscriptions (client s)) in
  NoDup active.*1 ∧
  (∀ topic sub1 sub2,
     (topic, sub1) ∈ active → (topic, sub2) ∈ active → sub1 = sub2) ∧
  (∀ topic handler w3,
     let '(mc', _, err, _, _) :=
       run answer (SubscribeToTopic topic handler (client s)) w3 in
     err = None →
     subscriptions (client s) !! topic = None ∧
     size (subscriptions mc') = S (size (subscriptions (client s))) ∧
     ∀ other, other ≠ topic →
       subscriptions mc' !! other = subscriptions (client s) !! other) ∧
  (Forall (λ op, is_call op = true) ops →
     NoDup (open_after tr []).*1 ∧
     (IsConnected (client s) = true →
      ∀ topic sub, (topic, sub) ∈ open_after tr [] → (topic, sub) ∈ active)).
Proof.
  intros _.
  pose proof (steps_tracked answer ops
                {| client := mc; goroutines := []; panicked := false |}
                w2 []) as Htracked.
  destruct (run answer (steps ops _) w2) as [[s w3] tr].
  cbv zeta. split_and!.
  - apply NoDup_fst_map_to_list.
  - intros topic sub1 sub2 H1%elem_of_map_to_list H2%elem_of_map_to_list.
    congruence.
  - intros topic handler w4.
    pose proof (subscribe_run answer topic handler (client s) w4) as H.
    destruct (run answer (SubscribeToTopic _ _ _) w4)
      as [[[[mc' started] err] w'] tr'].
    intros ->.
    destruct H as [([? [=]] & _) | (_ & _ & Hnone & sub & -> & _)].
    split_and!; [done | by apply map_size_insert_None |]; simpl.
    intros other Hne. by apply lookup_insert_ne.
  - intros Hcalls. destruct Htracked as [Hnd Hin].
    + done.
    + split; [constructor | by intros _ topic sub ?%elem_of_nil].
    + split; [done|]. intros Hc topic sub Hel.
      apply elem_of_map_to_list. by apply Hin.
Qed.

Lemma steps_stay_disconnected ops s w :
  IsConnected (client s) = false →
  IsConnected (client (run answer (steps ops s) w).1.1) = false.
Proof.
  revert s w. induction ops as [| op rest IH]; intros s w Hs; [done|].
  cbn [steps]. destruct (panicked s); [done|]. rewrite run_bind.
  pose proof (step_change answer op s w) as Hch.
  destruct (run answer (step op s) w) as [[s1 w1] tr1]. simpl in Hch.
  specialize (IH s1 w1 (change_stays_disconnected _ _ Hch Hs)).
  by destruct (run answer (steps rest s1) w1) as [[s2 w2] tr2].
Qed.

(** C7. After [Close] has been called on a client, in whatever state,
    [IsConnected] is false, and it is still false after any further
    sequence of calls to [SubscribeToTopic], [PublishToQueue],
    [PublishToTopic], [Unsubscribe], [IsConnected] and [Close], and of
    goroutine turns, whatever the environment answers. *)
Theorem closed_is_terminal (s : System) (w : W) (ops : list Op) (w' : W) :
  let closed := (run answer (step CallClose s) w).1.1 in
  IsConnected (client closed) = false ∧
  IsConnected (client (run answer (steps ops closed) w').1.1) = false.
Proof.
  cbv zeta.
  assert (IsConnected (client (run answer (step CallClose s) w).1.1) = false)
    as Hclosed.
  { cbn [step]. rewrite run_bind. destruct (IsConnected (client s)) eqn:Hc.
    - pose proof (close_connected answer (client s) w Hc) as H.
      destruct (run answer (Close _) w) as [[mc' w1] tr].
      by destruct H as (-> & _).
    - by rewrite (close_disconnected answer _ _ Hc). }
  split; [done|]. by apply steps_stay_disconnected.
Qed.
End Session.

(** ** The consumer goroutine *)

Section Consumer.
Import Messaging.
Context {W : Type} (answer : ∀ e : Event, W → Resp e * W).

Lemma filter_all {A} (P : A → Prop) `{!∀ x, Decision (P x)} (l : list A) :
  Forall P l → filter P l = l.
Proof.
  induction 1 as [| x l Hx _ IH]; [done|].
  rewrite filter_cons_True by done. by f_equal.
Qed.

(** One turn of the loop, read off its run. *)
Lemma consumer_turn c w :
  let '(ctl, w', tr) := run answer (consumer_iteration c) w in
  (ctl = Panic ∧ messages_received tr = [] ∧ handler_calls tr = [] ∧
   log_lines tr = [] ∧ omap nil_read tr = [c_sub c]) ∨
  (omap nil_read tr = [] ∧
   ∃ msg,
     messages_received tr = [msg] ∧
     match Err msg with
     | Some e => ctl = Break ∧ handler_calls tr = []
     | None =>
         ctl = Continue ∧
         ∃ r, handler_calls tr = [(c_handler c, Body msg, r)] ∧
              ∀ e, r = Some e → handling_error_line c e ∈ log_lines tr
     end).
Proof.
  pose proof (consumer_iteration_run answer c w) as H.
  destruct (run answer (consumer_iteration c) w) as [[ctl w'] tr].
  destruct H as ([msg |] & rest & -> & H).
  - right. destruct (Err msg) as [e |] eqn:He.
    + destruct H as (-> & ->). split; [done|]. exists msg. by rewrite He.
    + destruct H as (-> & r & ->). split; [by destruct r|].
      exists msg. rewrite He. split; [by destruct r|].
      split; [done|]. exists r. split; [by destruct r|].
      intros e ->. simpl. by left.
  - left. by destruct H as (-> & ->).
Qed.

Lemma consumer_loop_run c n w :
  let '(ctl, w', tr) := run answer (consumer_loop n c) w in
  let msgs := messages_received tr in
  (handler_calls tr).*1 =
    (λ m, (c_handler c, Body m)) <$> filter (λ m, Err m = None) msgs ∧
  (∀ h b e, (h, b, Some e) ∈ handler_calls tr →
     handling_error_line c e ∈ log_lines tr) ∧
  match ctl with
  | Continue =>
      length msgs = n ∧ Forall (λ m, Err m = None) msgs ∧
      omap nil_read tr = []
  | Break =>
      (∃ before last e,
         msgs = before ++ [last] ∧ Err last = Some e ∧
         Forall (λ m, Err m = None) before) ∧
      omap nil_read tr = []
  | Panic =>
      Forall (λ m, Err m = None) msgs ∧ omap nil_read tr = [c_sub c]
  end.
Proof.
  revert w. induction n as [| n IH]; intros w.
  - simpl. split; [done|]. split; [|done]. by intros h b e ?%elem_of_nil.
  - cbn [consumer_loop]. rewrite run_bind.
    pose proof (consumer_turn c w) as Hturn.
    destruct (run answer (consumer_iteration c) w) as [[ctl1 w1] tr1].
    destruct Hturn as [(-> & Hmsg & Hcalls & Hlog & Hnil)
                      | (Hnil & msg & Hmsg & Hturn)].
    { simpl. rewrite app_nil_r. cbv zeta. rewrite Hmsg, Hcalls.
      split_and!; [done | by intros h b e ?%elem_of_nil | done | done]. }
    destruct (Err msg) as [e |] eqn:He.
    + destruct Hturn as (-> & Hcalls). simpl. rewrite app_nil_r.
      cbv zeta. rewrite Hmsg, Hcalls. split_and!.
      * by rewrite filter_cons_False by congruence.
      * by intros h b e' ?%elem_of_nil.
      * by exists [], msg, e.
      * done.
    + destruct Hturn as (-> & r & Hcalls & Hlog).
      specialize (IH w1).
      destruct (run answer (consumer_loop n c) w1) as [[ctl2 w2] tr2].
      cbv zeta in IH |- *. destruct IH as (IHcalls & IHlog & IHctl).
      unfold messages_received, handler_calls, log_lines in *.
      rewrite !omap_app. rewrite Hmsg, Hcalls, Hnil. split_and!.
      * cbn [app]. rewrite filter_cons_True by done. simpl. by f_equal.
      * intros h b e Hin. apply elem_of_app.
        apply elem_of_cons in Hin as [[= -> -> Hr] | Hin].
        -- left. by apply Hlog.
        -- right. by eapply IHlog.
      * destruct ctl2.
        -- destruct IHctl as (Hlen & Hall & Hnone). simpl.
           split_and!; [by f_equal | by constructor | done].
        -- destruct IHctl as ((before & last & e & -> & Hlast & Hall) & Hnone).
           split; [|done].
           exists (msg :: before), last, e. split_and!; [done..|].
           by constructor.
        -- destruct IHctl as (Hall & Hread). split; [by constructor | done].
Qed.

(** C9. The consumer goroutine of a subscription, over any number of
    turns and whatever messages the broker delivers and whatever the
    handler answers: every message received without a receive error is
    passed to the handler, in the order received, so a handler error
    does not keep later messages from the handler; every handler error
    is logged at error level; as long as no receive error has arrived
    the goroutine is still in its loop and has not touched the client;
    and when it has returned, the last message it read carried a
    receive error, no earlier one did, and the entry of its topic has
    been deleted from the active set. The one other way out of the loop
    is the panic on a nil read from the channel of the subscription,
    which happens exactly when the run read a nil, that is, from a closed
    channel; no message before it carried a receive error and the client
    is untouched. *)
Theorem consumer_survives_handler_errors
    (c : Consumer) (n : nat) (mc : MessageClient) (w : W) :
  let '(mc', fate, w', tr) := run answer (consumer_goroutine n c mc) w in
  let msgs := messages_received tr in
  (handler_calls tr).*1 =
    (λ m, (c_handler c, Body m)) <$> filter (λ m, Err m = None) msgs ∧
  (∀ h b e, (h, b, Some e) ∈ handler_calls tr →
     handling_error_line c e ∈ log_lines tr) ∧
  (fate = InLoop →
     length msgs = n ∧ Forall (λ m, Err m = None) msgs ∧ mc' = mc) ∧
  (fate = Returned →
     ∃ before last e,
       msgs = before ++ [last] ∧ Err last = Some e ∧
       Forall (λ m, Err m = None) before ∧
       mc' = with_subscriptions (delete (c_topic c) (subscriptions mc)) mc) ∧
  (fate = Panicked ↔ omap nil_read tr ≠ []) ∧
  (fate = Panicked →
     omap nil_read tr = [c_sub c] ∧
     Forall (λ m, Err m = None) msgs ∧ mc' = mc).
Proof.
  unfold consumer_goroutine. rewrite run_bind.
  pose proof (consumer_loop_run c n w) as H.
  destruct (run answer (consumer_loop n c) w) as [[ctl w1] tr1].
  cbv zeta in H. destruct H as (Hcalls & Hlog & Hctl).
  destruct ctl; simpl.
  - rewrite app_nil_r. destruct Hctl as (Hlen & Hall & Hnone).
    split_and!; [done | done | done | done | | done].
    rewrite Hnone. by split.
  - ask answer. simpl. destruct r.
    destruct Hctl as ((before & last & e & Hmsgs & Hlast & Hall) & Hnone).
    unfold messages_received, handler_calls, log_lines in *.
    rewrite !omap_app. simpl. rewrite !app_nil_r.
    split_and!; [done | | done | | | done].
    + intros h b e' Hin. apply elem_of_app. left. by eapply Hlog.
    + intros _. by exists before, last, e.
    + rewrite Hnone. by split.
  - rewrite app_nil_r. destruct Hctl as (Hall & Hread).
    split_and!; [done | done | done | done | | done].
    rewrite Hread. by split.
Qed.
End Consumer.

(** ** The command handlers *)

Section Commands.
Import Messaging Gateway.
Context {W : Type} (answer : ∀ e : Event, W → Resp e * W).

(** C8, as the code has it. A gateway that holds no client (the nil
    client [main] passes on when the broker could not be reached)
    answers every command with 503 Service Unavailable, before it looks
    at the body and without asking anything of the environment. A
    gateway whose client exists but is not connected answers a
    well-formed command with 500 Internal Server Error: the
    not-connected error of [PublishToQueue] is logged and nothing
    reaches the transport. *)
Theorem commands_without_broker (g : Gateway)
    (start : res StartBotRequest) (stop : res StopBotRequest)
    (fetch : res FetchHistoryRequest) (w : W) :
  (messageClient g = None →
     run answer (handleStartBot g start) w = (broker_not_available, w, []) ∧
     run answer (handleStopBot g stop) w = (broker_not_available, w, []) ∧
     run answer (handleFetchHistory g fetch) w = (broker_not_available, w, [])) ∧
  (∀ mc, messageClient g = Some mc → IsConnected mc = false →
     (∀ request, start = Ok request →
        let '(response, _, tr) := run answer (handleStartBot g start) w in
        response = failed_to_send ∧
        (ErrorLevel, "Failed to publish start bot command: "
                     +:+ Error_text ErrNotConnected) ∈ log_lines tr ∧
        Forall (λ o, to_transport (event_of o) = false) tr) ∧
     (∀ request, stop = Ok request →
        let '(response, _, tr) := run answer (handleStopBot g stop) w in
        response = failed_to_send ∧
        (ErrorLevel, "Failed to publish stop bot command: "
                     +:+ Error_text ErrNotConnected) ∈ log_lines tr ∧
        Forall (λ o, to_transport (event_of o) = false) tr) ∧
     (∀ request, fetch = Ok request →
        let '(response, _, tr) := run answer (handleFetchHistory g fetch) w in
        response = failed_to_send ∧
        (ErrorLevel, "Failed to publish fetch history command: "
                     +:+ Error_text ErrNotConnected) ∈ log_lines tr ∧
        Forall (λ o, to_transport (event_of o) = false) tr)).
Proof.
  split.
  - intros Hnil. unfold handleStartBot, handleStopBot, handleFetchHistory.
    by rewrite Hnil.
  - intros mc Hmc Hc.
    unfold handleStartBot, handleStopBot, handleFetchHistory,
      PublishToQueue.
    rewrite Hmc, Hc. simpl.
    split_and!; intros request ->; simpl; ask answer; ask answer;
      destruct r0; (split_and!; [done | | repeat constructor]);
      simpl; by left.
Qed.
End Commands.

(** ** The hub *)

Section HubBroadcast.
Import Hub.

Lemma deliver_room e c :
  length (queue c) < capacity c →
  deliver e c = Some {| userID := userID c; queue := queue c ++ [e];
                        capacity := capacity c |}.
Proof. intros H. unfold deliver, enqueue. by rewrite decide_True. Qed.

Lemma deliver_full e c :
  capacity c ≤ length (queue c) → deliver e c = None.
Proof. intros H. unfold deliver, enqueue. rewrite decide_False; [done | lia]. Qed.

(** An id that was handed out and is no longer registered stays out of
    the registry, whatever requests follow. *)
Lemma serve_gone id r h :
  id < nextID h → registry h !! id = None →
  id < nextID (serve h r) ∧ registry (serve h r) !! id = None.
Proof.
  intros Hlt Hnone. destruct r as [c | id' | e]; simpl.
  - split; [lia|]. rewrite lookup_insert_ne; [done | lia].
  - split; [done|]. destruct (decide (id' = id)) as [-> |].
    + apply lookup_delete_eq.
    + by rewrite lookup_delete_ne.
  - split; [done|]. by rewrite lookup_omap, Hnone.
Qed.

Lemma serve_all_gone id rs h :
  id < nextID h → registry h !! id = None →
  registry (foldl serve h rs) !! id = None.
Proof.
  revert h. induction rs as [| r rs IH]; intros h Hlt Hnone; [done|].
  simpl. destruct (serve_gone id r h Hlt Hnone) as [Hlt' Hnone']. by apply IH.
Qed.

(** C1, on the hub of the specification. [broadcast e] returns no
    error, whatever happens to single deliveries. Every connection
    registered when it is called gets its delivery attempt: with room in
    its outbound queue it stays registered and [e] is appended once at
    the end of the queue; with a saturated queue the delivery fails and
    the connection is evicted. An id that is not registered at that
    time has no connection afterwards either, so nothing is delivered to
    it; this is the case of every id that was handed out and then
    unregistered, whatever requests the hub served in between. *)
Theorem broadcast_delivery (e : Envelope) (h : Hub) :
  let '(h', err) := broadcast e h in
  err = None ∧
  (∀ id c, registry h !! id = Some c → length (queue c) < capacity c →
     ∃ c', registry h' !! id = Some c' ∧ queue c' = queue c ++ [e] ∧
           userID c' = userID c ∧ capacity c' = capacity c) ∧
  (∀ id c, registry h !! id = Some c → capacity c ≤ length (queue c) →
     registry h' !! id = None) ∧
  (∀ id, registry h !! id = None → registry h' !! id = None) ∧
  (∀ id h0 later,
     id < nextID h0 → h = foldl serve (unregister id h0) later →
     registry h !! id = None ∧ registry h' !! id = None).
Proof.
  simpl. split_and!.
  - done.
  - intros id c Hc Hroom. rewrite lookup_omap, Hc. simpl.
    rewrite deliver_room by done. by eexists.
  - intros id c Hc Hfull. rewrite lookup_omap, Hc. simpl.
    by apply deliver_full.
  - intros id Hnone. by rewrite lookup_omap, Hnone.
  - intros id h0 later Hlt ->.
    assert (registry (foldl serve (unregister id h0) later) !! id = None)
      as Hnone.
    { apply serve_all_gone; [done|]. simpl. apply lookup_delete_eq. }
    split; [done|]. by rewrite lookup_omap, Hnone.
Qed.
End HubBroadcast.

(** ** The properties on concrete systems *)

Section Concrete.
Import Messaging Gateway Examples.
Import (notations) Hub.

(** Proves that [trading_system] is reachable in a scripted environment
    whose broker accepts connections and subscriptions. *)
Ltac reach_trading :=
  eapply reachable_step with
    (s := {| client := new_client; goroutines := []; panicked := false |})
    (op := CallSubscribeToTopic trades 7) (w := 2);
  [ eapply reachable_new with (brokerURL := "stomp://localhost:61613") (w := 0);
    reflexivity
  | reflexivity
  | reflexivity ].

Lemma publish_contract_witness :
  (PublishToQueue = PublishToQueue ∨ PublishToQueue = PublishToTopic) ∧
  run (scripted no_faults)
      (PublishToQueue "queue://commands.stop_bot" (VString "stop") closed_client) 5
    = (Some ErrNotConnected, 5, []).
Proof.
  split; [by left|].
  generalize (publish_contract (scripted no_faults) PublishToQueue
                "queue://commands.stop_bot" (VString "stop") closed_client 5
                (or_introl eq_refl)).
  destruct (run _ _ _) as [[err w'] tr].
  intros [H _]. by destruct (H eq_refl) as (-> & _ & -> & ->).
Defined.

Lemma subscribe_twice_witness :
  reachable (scripted no_faults) trading_system ∧
  subscriptions (client trading_system) !! trades = Some 2 ∧
  run (scripted no_faults) (step (CallSubscribeToTopic trades 8) trading_system) 3
    = (trading_system, 3, []) ∧
  trading_consumer ∈ goroutines trading_system.
Proof.
  assert (reachable (scripted no_faults) trading_system) as Hreach
    by reach_trading.
  assert (subscriptions (client trading_system) !! trades = Some 2) as Hsub
    by reflexivity.
  destruct (subscribe_twice (scripted no_faults) trading_system trades 2 8 3
              Hreach Hsub) as (_ & _ & Hstep & _).
  split_and!; [exact Hreach | exact Hsub | exact Hstep | left].
Defined.

Lemma one_subscription_per_topic_witness :
  let ops := [CallSubscribeToTopic trades 7; CallUnsubscribe trades;
              CallSubscribeToTopic trades 8; CallPublishToTopic trades VNil] in
  let '(s, _, tr) :=
    run (scripted no_faults)
        (steps ops
           {| client := new_client; goroutines := []; panicked := false |})
        2 in
  Forall (λ op, is_call op = true) ops ∧
  NoDup (map_to_list (subscriptions (client s))).*1 ∧
  NoDup (open_after tr []).*1.
Proof.
  intros ops.
  pose proof (one_subscription_per_topic (scripted no_faults)
                "stomp://localhost:61613" 0 new_client 2 _ ops 2 eq_refl) as H.
  destruct (run _ _ _) as [[s w'] tr]. cbv zeta in H.
  destruct H as (Hactive & _ & _ & Hopen).
  assert (Forall (λ op, is_call op = true) ops) as Hcalls
    by (repeat constructor).
  split_and!; [exact Hcalls | exact Hactive | exact (proj1 (Hopen Hcalls))].
Defined.

(** C6, at the failing input: a connected client with one subscription,
    whose goroutine waits for the next message, on a transport that
    closes the channel of a subscription it cancels. [Close] cancels the
    subscription and returns, but it does not stop the goroutine: the
    goroutine reads nil from the closed channel, panics, and the process
    is gone; nothing runs after that. *)
Theorem close_panics_waiting_consumer :
  let w0 := {| handles := 3; cancelled := [] |} in
  reachable closing_channels trading_system ∧
  panicked trading_system = false ∧
  subscriptions (client trading_system) !! trades = Some 2 ∧
  let '(s1, w1, tr1) :=
    run closing_channels (step CallClose trading_system) w0 in
  omap unsubscribed tr1 = [2] ∧
  goroutines s1 = [trading_consumer] ∧
  let '(s2, _, tr2) := run closing_channels (step (ConsumerTurn 0) s1) w1 in
  tr2 = [obs (SubRecv 2) None] ∧
  panicked s2 = true ∧
  ∀ ops w, run closing_channels (steps ops s2) w = (s2, w, []).
Proof.
  cbv zeta. split_and!.
  - eapply reachable_step with
      (s := {| client := new_client; goroutines := []; panicked := false |})
      (op := CallSubscribeToTopic trades 7)
      (w := {| handles := 2; cancelled := [] |});
    [ eapply reachable_new with
        (brokerURL := "stomp://localhost:61613")
        (w := {| handles := 0; cancelled := [] |}); reflexivity
    | reflexivity
    | reflexivity ].
  - reflexivity.
  - reflexivity.
  - destruct (run closing_channels (step CallClose trading_system) _)
      as [[s1 w1] tr1] eqn:E1.
    vm_compute in E1. injection E1 as <- <- <-.
    split_and!; [reflexivity | reflexivity |].
    destruct (run closing_channels (step (ConsumerTurn 0) _) _)
      as [[s2 w2] tr2] eqn:E2.
    vm_compute in E2. injection E2 as <- <- <-.
    split_and!; [reflexivity | reflexivity |].
    by intros [| op rest] w.
Qed.

Lemma consumer_survives_handler_errors_witness :
  let '(mc', fate, _, tr) :=
    run (scripted handler_broken)
        (consumer_goroutine 3 trading_consumer (client trading_system)) 3 in
  fate = InLoop ∧ mc' = client trading_system ∧
  length (messages_received tr) = 3 ∧ length (handler_calls tr) = 3.
Proof.
  pose proof (consumer_survives_handler_errors (scripted handler_broken)
                trading_consumer 3 (client trading_system) 3) as H.
  destruct (run _ _ _) as [[[mc' fate] w'] tr] eqn:Hrun.
  cbv zeta in H. destruct H as (Hcalls & _ & Hrunning & _).
  assert (fate = InLoop) as ->.
  { apply (f_equal (λ x, x.1.1.2)) in Hrun. vm_compute in Hrun. congruence. }
  destruct (Hrunning eq_refl) as (Hlen & Hall & ->).
  split_and!; [reflexivity | reflexivity | exact Hlen |].
  rewrite <- (length_fmap fst), Hcalls, length_fmap.
  rewrite filter_all; [exact Hlen | exact Hall].
Defined.

Lemma broadcast_delivery_witness :
  let '(h', err) := Hub.broadcast trade_fill busy_hub in
  err = None ∧
  Hub.queue <$> Hub.registry h' !! 0 = Some [trade_fill] ∧
  Hub.registry h' !! 1 = None ∧
  Hub.registry h' !! 2 = None.
Proof.
  pose proof (broadcast_delivery trade_fill busy_hub) as H.
  destruct (Hub.broadcast trade_fill busy_hub) as [h' err].
  destruct H as (Herr & Hroom & Hfull & Habsent & _).
  split_and!.
  - exact Herr.
  - destruct (Hroom 0 idle_connection) as (c' & -> & Hq & _);
      [reflexivity | simpl; lia |].
    simpl. rewrite Hq. reflexivity.
  - apply Habsent. reflexivity.
  - apply (Hfull 2 stalled_connection); [reflexivity | simpl; lia].
Defined.

(** Against C4 as stated: the transport refuses to cancel the
    subscription of [trades]; [Unsubscribe] returns the wrapped error
    and the topic is still in the active set. *)
Lemma unsubscribe_refused_keeps_topic :
  reachable (scripted unsubscribe_refused) trading_system ∧
  subscriptions (client trading_system) !! trades = Some 2 ∧
  run (scripted unsubscribe_refused)
      (Unsubscribe trades (client trading_system)) 3
    = (client trading_system,
       Some (ErrUnsubscribe trades "connection closed"), 3,
       [obs (SubUnsubscribe 2) (Some "connection closed")]) ∧
  subscriptions
    (run (scripted unsubscribe_refused)
         (Unsubscribe trades (client trading_system)) 3).1.1.1 !! trades
    ≠ None.
Proof.
  split_and!.
  - reach_trading.
  - reflexivity.
  - vm_compute. reflexivity.
  - intros H. vm_compute in H. discriminate H.
Qed.

(** Against C8 as stated: a well-formed start-bot command on a gateway
    whose session has been closed, or whose transport refuses the write,
    is answered 500, not 503. *)
Lemma command_without_transport_answers_500 :
  reachable (scripted no_faults)
    {| client := closed_client; goroutines := []; panicked := false |} ∧
  IsConnected closed_client = false ∧
  (run (scripted no_faults)
       (handleStartBot {| messageClient := Some closed_client |}
                       (Ok start_request)) 2).1.1 = failed_to_send ∧
  (run (scripted transport_down)
       (handleStartBot {| messageClient := Some new_client |}
                       (Ok start_request)) 2).1.1 = failed_to_send ∧
  status failed_to_send = 500 ∧
  status failed_to_send ≠ StatusServiceUnavailable.
Proof.
  split_and!.
  - eapply reachable_step with
      (s := {| client := new_client; goroutines := []; panicked := false |})
      (op := CallClose) (w := 2);
      [ eapply reachable_new with
          (brokerURL := "stomp://localhost:61613") (w := 0); reflexivity
      | reflexivity
      | reflexivity ].
  - reflexivity.
  - vm_compute. reflexivity.
  - vm_compute. reflexivity.
  - reflexivity.
  - intros H. vm_compute in H. discriminate H.
Qed.
End Concrete.

(** * Properties of the rest of the code *)

(** ** Connecting *)

Section Connecting.
Import Messaging.
Context {W : Type} (answer : ∀ e : Event, W → Resp e * W).

(** X1. [NewMessageClient] returns a client exactly when it returns no
    error. The client it returns is connected, holds no subscription and
    stores the URL it was given; it was obtained by one dial and one STOMP
    connect with login and passcode [admin]. An error it returns is of
    the broker-unavailable kind. *)
Theorem new_client_outcome (brokerURL : string) (w : W) :
  let '(client, err, _, tr) := run answer (NewMessageClient brokerURL) w in
  (is_Some client ↔ err = None) ∧
  (∀ mc, client = Some mc →
     IsConnected mc = true ∧ subscriptions mc = ∅ ∧ url mc = brokerURL ∧
     ∃ nc c,
       conn mc = Some c ∧
       tr = [obs (NetDialTimeout "tcp" "artemis-service:61613" 10) (Ok nc);
             obs (StompConnect nc "admin" "admin") (Ok c);
             obs (Log InfoLevel "Connected to message broker") tt]) ∧
  (∀ e, err = Some e → kind_of e = BrokerUnavailable).
Proof.
  unfold NewMessageClient, connect. rewrite JoinHostPort_artemis. simpl.
  ask answer. destruct r as [nc | cause]; simpl.
  - ask answer. destruct r as [c | cause]; simpl; ask answer; destruct r.
    + split_and!.
      * done.
      * intros mc [= <-]. split_and!; [done..|]. by exists nc, c.
      * by intros e [=].
    + split_and!.
      * split; [by intros [? [=]] | by intros [=]].
      * by intros mc [=].
      * by intros e [= <-].
  - split_and!.
    + split; [by intros [? [=]] | by intros [=]].
    + by intros mc [=].
    + by intros e [= <-].
Qed.

(** X2. [NewMessageClient] leaks no network connection: when it fails,
    every connection it dialled has been closed, and when the dial itself
    failed nothing else was asked of the environment; when it succeeds
    the one connection it dialled is left open for the STOMP session. *)
Theorem new_client_closes_on_failure (brokerURL : string) (w : W) :
  let '(client, err, _, tr) := run answer (NewMessageClient brokerURL) w in
  (client = None → omap net_closed tr = omap dialled tr) ∧
  (omap dialled tr = [] → client = None ∧ length tr = 1) ∧
  (is_Some client → omap net_closed tr = [] ∧ length (omap dialled tr) = 1).
Proof.
  unfold NewMessageClient, connect. rewrite JoinHostPort_artemis. simpl.
  ask answer. destruct r as [nc | cause]; simpl.
  - ask answer. destruct r as [c | cause]; simpl; ask answer; destruct r.
    + split_and!; [by intros [=] | by intros [=] | done].
    + split_and!; [done | by intros [=] | by intros [? [=]]].
  - split_and!; [done | done | by intros [? [=]]].
Qed.
End Connecting.

(** ** Subscribing and unsubscribing *)

Section SubscribeUnsubscribe.
Import Messaging.
Context {W : Type} (answer : ∀ e : Event, W → Resp e * W).

(** X22. [SubscribeToTopic] is all or nothing. It starts a goroutine
    exactly when it returns nil. When it returns an error the client is
    left as it was and nothing is logged; on a client that is not
    connected the error is the not-connected one and the transport is not
    asked. When it returns nil the topic is mapped to the subscription the
    transport opened, the one the goroutine consumes, every other topic
    keeps its entry, and the client stays connected on the same
    connection. *)
Theorem subscribe_all_or_nothing (topic : string) (handler : Handler)
    (mc : MessageClient) (w : W) :
  let '(mc', started, err, _, tr) :=
    run answer (SubscribeToTopic topic handler mc) w in
  (is_Some started ↔ err = None) ∧
  (is_Some err → mc' = mc ∧ log_lines tr = [] ∧ omap opened tr = []) ∧
  (IsConnected mc = false → err = Some ErrNotConnected ∧ tr = []) ∧
  (err = None →
     IsConnected mc' = true ∧ conn mc' = conn mc ∧
     (∀ other, other ≠ topic →
        subscriptions mc' !! other = subscriptions mc !! other) ∧
     ∃ sub,
       subscriptions mc' !! topic = Some sub ∧
       omap opened tr = [(topic, sub)] ∧
       started = Some {| c_topic := topic; c_sub := sub;
                         c_handler := handler |}).
Proof.
  unfold SubscribeToTopic. destruct (IsConnected mc) eqn:Hc; simpl.
  - destruct (subscriptions mc !! topic) as [old |] eqn:Hold; simpl.
    + split_and!; [split; [by intros [? [=]] | done] | done | done | done].
    + ask answer. destruct r as [sub | cause]; simpl.
      * ask answer. destruct r. simpl. split_and!.
        -- done.
        -- by intros [? [=]].
        -- done.
        -- intros _. split_and!; [done | done | |].
           ++ intros other Hother. by apply lookup_insert_ne.
           ++ exists sub. split_and!; [apply lookup_insert_eq | done | done].
      * split_and!; [split; [by intros [? [=]] | done] | done | done | done].
  - split_and!; [split; [by intros [? [=]] | done] | done | done | done].
Qed.

Lemma change_conn mc mc' : client_change mc mc' → conn mc' = conn mc.
Proof. by intros []. Qed.

Lemma reachable_conn s : reachable answer s → is_Some (conn (client s)).
Proof.
  induction 1 as [brokerURL w mc w' tr Hnew | s op w s' w' tr _ IH _ Hrun].
  - apply new_client_fresh in Hnew as (_ & Hc & _). simpl.
    unfold IsConnected in Hc. destruct (conn mc); [done|].
    by rewrite andb_false_r in Hc.
  - pose proof (step_change answer op s w) as Hch. rewrite Hrun in Hch.
    simpl in Hch. by rewrite (change_conn _ _ Hch).
Qed.

(** X5. What every reachable system keeps: the connection pointer of the
    client is never nil; a client that is not connected holds no
    subscription; and every entry of the subscription map has a running
    goroutine that consumes that topic on that subscription. *)
Theorem reachable_client_invariants (s : System) :
  reachable answer s →
  is_Some (conn (client s)) ∧
  (IsConnected (client s) = false → subscriptions (client s) = ∅) ∧
  (∀ topic sub,
     subscriptions (client s) !! topic = Some sub →
     ∃ handler,
       {| c_topic := topic; c_sub := sub; c_handler := handler |}
         ∈ goroutines s).
Proof.
  intros Hs. split; [by apply reachable_conn|].
  by apply (reachable_invariants answer).
Qed.
(** X3. [Unsubscribe] does not stop the goroutine of the topic. In a
    reachable system, after [Unsubscribe] of a topic that has an entry,
    whether the transport accepted or refused, the goroutines are the
    ones there were, and among them is still the one that consumes the
    subscription that was stored for the topic; when the receive of its
    next turn yields nil, as it does once the channel of the subscription
    has been closed, that turn panics. *)
Theorem unsubscribe_leaves_goroutine (s : System) (topic : string)
    (sub : Subscription) (w : W) :
  reachable answer s →
  subscriptions (client s) !! topic = Some sub →
  let '(s1, _, tr) := run answer (step (CallUnsubscribe topic) s) w in
  omap unsubscribed tr = [sub] ∧
  goroutines s1 = goroutines s ∧
  panicked s1 = panicked s ∧
  ∃ i handler,
    goroutines s1 !! i
      = Some {| c_topic := topic; c_sub := sub; c_handler := handler |} ∧
    ∀ w2,
      (answer (SubRecv sub) w2).1 = None →
      let '(s2, _, tr2) := run answer (step (ConsumerTurn i) s1) w2 in
      panicked s2 = true ∧ tr2 = [obs (SubRecv sub) None].
Proof.
  intros [_ Hcons]%(reachable_invariants answer) Hsub.
  destruct (Hcons _ _ Hsub) as [handler Hin].
  apply list_elem_of_lookup_1 in Hin as [i Hi].
  cbn [step]. rewrite run_bind.
  rewrite (unsubscribe_present answer _ _ _ _ Hsub).
  assert (∀ mc1 p w2,
            (answer (SubRecv sub) w2).1 = None →
            let '(s2, _, tr2) :=
              run answer
                (step (ConsumerTurn i)
                   {| client := mc1; goroutines := goroutines s;
                      panicked := p |}) w2 in
            panicked s2 = true ∧ tr2 = [obs (SubRecv sub) None]) as Hturn.
  { intros mc1 p w2 Hnil. cbn [step goroutines]. rewrite Hi.
    unfold consumer_iteration. simpl.
    destruct (answer (SubRecv sub) w2) as [[msg |] w3]; [done|]. done. }
  destruct (answer (SubUnsubscribe sub) w) as [[e |] w1]; simpl.
  - split_and!; [done..|]. exists i, handler. split; [done|]. apply Hturn.
  - split_and!; [done..|]. exists i, handler. split; [done|]. apply Hturn.
Qed.
End SubscribeUnsubscribe.

(** ** Publishing *)

Section Publishing.
Import Messaging.
Context {W : Type} (answer : ∀ e : Event, W → Resp e * W).

Lemma publish_queue_outcome queue message mc w :
  let '(err, _, tr) := run answer (PublishToQueue queue message mc) w in
  publish_outcome mc queue message err tr.
Proof.
  unfold PublishToQueue. destruct (IsConnected mc) eqn:Hc; simpl;
    [| by constructor].
  ask answer. destruct r as [data | cause]; simpl; [| by constructor].
  ask answer. destruct r as [e |]; simpl.
  - econstructor; [done | by left].
  - ask answer. destruct r. by constructor.
Qed.

Lemma publish_topic_outcome topic message mc w :
  let '(err, _, tr) := run answer (PublishToTopic topic message mc) w in
  publish_outcome mc topic message err tr.
Proof.
  unfold PublishToTopic. destruct (IsConnected mc) eqn:Hc; simpl;
    [| by constructor].
  ask answer. destruct r as [data | cause]; simpl; [| by constructor].
  ask answer. destruct r as [e |]; simpl.
  - econstructor; [done | by right].
  - ask answer. destruct r. by constructor.
Qed.

Lemma publish_outcome_either
    (publish : string → GoValue → MessageClient → Prog (option Error))
    destination payload mc w :
  publish = PublishToQueue ∨ publish = PublishToTopic →
  let '(err, _, tr) := run answer (publish destination payload mc) w in
  publish_outcome mc destination payload err tr.
Proof.
  intros [-> | ->]; [apply publish_queue_outcome | apply publish_topic_outcome].
Qed.

(** X6. One call of [PublishToQueue] or [PublishToTopic] marshals at most
    once and writes to the transport at most once, never retrying; what it
    writes goes to the destination it was given, as [application/json],
    and is the very byte sequence [json.Marshal] returned for the
    payload. *)
Theorem publish_writes_at_most_once
    (publish : string → GoValue → MessageClient → Prog (option Error))
    (destination : string) (payload : GoValue) (mc : MessageClient) (w : W) :
  publish = PublishToQueue ∨ publish = PublishToTopic →
  let '(_, _, tr) := run answer (publish destination payload mc) w in
  length (omap sent tr) ≤ 1 ∧
  omap marshalled tr `prefix_of` [payload] ∧
  (∀ d ct data, (d, ct, data) ∈ omap sent tr →
     d = destination ∧ ct = "application/json" ∧
     obs (JsonMarshal payload) (Ok data) ∈ tr).
Proof.
  intros Hp.
  pose proof (publish_outcome_either publish destination payload mc w Hp) as H.
  destruct (run answer (publish destination payload mc) w) as [[err w'] tr].
  destruct H as [Hc | cause Hc | e cause data Hc He | data line Hc]; simpl.
  - split_and!; [lia | by exists [payload] |].
    by intros d ct data ?%elem_of_nil.
  - split_and!; [lia | by exists [] |].
    by intros d ct data ?%elem_of_nil.
  - split_and!; [lia | by exists [] |].
    intros d ct data' [= -> -> ->]%list_elem_of_singleton.
    split_and!; [done | done | by left].
  - split_and!; [lia | by exists [] |].
    intros d ct data' [= -> -> ->]%list_elem_of_singleton.
    split_and!; [done | done | by left].
Qed.

(** X7. The kind of the error a publish returns tells how far it got.
    Broker-unavailable: the client was not connected and nothing was
    asked of the environment. Encoding-error: [json.Marshal] rejected the
    payload, the error wraps its cause, and nothing was written or
    logged. Transport error: the payload was marshalled, the bytes
    [json.Marshal] returned were written once to the destination and the
    transport refused them; the error is the one of the method
    (send-to-queue for [PublishToQueue], send-to-topic for
    [PublishToTopic]) wrapping the cause, and nothing was logged. Nil: the
    bytes [json.Marshal] returned were written once and the transport
    accepted them, and then the line of the method was logged. A publish
    never returns an error of another kind. *)
Theorem publish_error_tells_progress
    (destination : string) (payload : GoValue) (mc : MessageClient) (w : W) :
  (let '(err, _, tr) :=
     run answer (PublishToQueue destination payload mc) w in
   publish_progress mc destination payload (ErrSendQueue destination)
     ("Published message to queue: " +:+ destination) err tr) ∧
  (let '(err, _, tr) :=
     run answer (PublishToTopic destination payload mc) w in
   publish_progress mc destination payload (ErrSendTopic destination)
     ("Published message to topic: " +:+ destination) err tr).
Proof.
  unfold publish_progress, PublishToQueue, PublishToTopic.
  destruct (IsConnected mc) eqn:Hc; simpl; [|done].
  split.
  - ask answer. destruct r as [data | cause]; simpl; [|by eauto].
    ask answer. destruct r as [e |]; simpl; [by eauto|].
    ask answer. destruct r. simpl. by eauto.
  - ask answer. destruct r as [data | cause]; simpl; [|by eauto].
    ask answer. destruct r as [e |]; simpl; [by eauto|].
    ask answer. destruct r. simpl. by eauto.
Qed.
End Publishing.

(** ** Goroutine turns and the connected flag *)

Section TurnsAndHealth.
Import Messaging Gateway.
Context {W : Type} (answer : ∀ e : Event, W → Resp e * W).

(** X8. One turn of a consumer goroutine makes one receive on the channel
    of its subscription and no call to the transport. If the receive
    yields nil (the channel is closed) the goroutine panics: nothing else
    is done, and the process is gone with client and goroutines as they
    were. If it yields a message without a receive error the handler is
    invoked once with its body and the system is left as it was. If the
    message carries a receive error the handler is not invoked, the
    goroutine ends, and the entry of its topic is deleted from the
    subscription map, by topic and whichever subscription is stored
    there, without a cancel at the transport and without touching the
    connected flag. *)
Theorem consumer_turn_effect (s : System) (i : nat) (c : Consumer) (w : W) :
  goroutines s !! i = Some c →
  let '(s', _, tr) := run answer (step (ConsumerTurn i) s) w in
  Forall (λ o, to_transport (event_of o) = false) tr ∧
  ∃ read rest,
    tr = obs (SubRecv (c_sub c)) read :: rest ∧
    Forall (λ o, ∀ sub, event_of o ≠ SubRecv sub) rest ∧
    match read with
    | None =>
        rest = [] ∧ panicked s' = true ∧
        client s' = client s ∧ goroutines s' = goroutines s
    | Some msg =>
        panicked s' = panicked s ∧
        match Err msg with
        | None =>
            s' = s ∧ ∃ r, handler_calls tr = [(c_handler c, Body msg, r)]
        | Some _ =>
            handler_calls tr = [] ∧
            goroutines s' = delete i (goroutines s) ∧
            subscriptions (client s')
              = delete (c_topic c) (subscriptions (client s)) ∧
            IsConnected (client s') = IsConnected (client s)
        end
    end.
Proof.
  intros Hi. cbn [step]. rewrite Hi, run_bind.
  pose proof (consumer_iteration_run answer c w) as H.
  destruct (run answer (consumer_iteration c) w) as [[ctl w1] tr1].
  destruct H as ([msg |] & rest & -> & H).
  - destruct (Err msg) as [e |] eqn:He.
    + destruct H as (-> & ->). unfold consumer_cleanup. simpl.
      ask answer. destruct r. simpl. split; [by repeat constructor|].
      eexists (Some msg), _. split; [done|]. rewrite He.
      split_and!; try done. repeat constructor; by intros.
    + destruct H as (-> & r & ->). simpl.
      split; [destruct r; by repeat constructor|].
      eexists (Some msg), _. split; [done|]. rewrite He. split_and!.
      * destruct r; repeat constructor; by intros.
      * done.
      * by destruct s.
      * exists r. by destruct r.
  - destruct H as (-> & ->). simpl. split; [by repeat constructor|].
    by exists None, [].
Qed.

Lemma step_keeps_connected op s w :
  op ≠ CallClose →
  IsConnected (client s) = true →
  IsConnected (client (run answer (step op s) w).1.1) = true.
Proof.
  intros Hop Hc.
  destruct op as [topic handler | queue message | topic message | topic
                 | | | i]; cbn [step]; [| | | | | done |].
  - rewrite run_bind.
    pose proof (subscribe_run answer topic handler (client s) w) as H.
    destruct (run answer (SubscribeToTopic _ _ _) w)
      as [[[[mc' started] err] w'] tr].
    by destruct H as [(_ & -> & _) | (_ & _ & _ & sub & -> & _)].
  - rewrite run_bind.
    by destruct (run answer (PublishToQueue _ _ _) w) as [[err w'] tr].
  - rewrite run_bind.
    by destruct (run answer (PublishToTopic _ _ _) w) as [[err w'] tr].
  - rewrite run_bind.
    destruct (subscriptions (client s) !! topic) as [sub |] eqn:Hsub.
    + rewrite (unsubscribe_present answer _ _ _ _ Hsub).
      by destruct (answer (SubUnsubscribe sub) w) as [[e |] w1].
    + by rewrite (unsubscribe_absent answer _ _ _ Hsub).
  - done.
  - destruct (goroutines s !! i) as [c |]; [|done].
    rewrite run_bind.
    destruct (run answer (consumer_iteration c) w) as [[[| |] w'] tr]; simpl.
    + done.
    + unfold consumer_cleanup. simpl. by ask answer.
    + done.
Qed.

Lemma steps_keep_connected ops s w :
  Forall (λ op, op ≠ CallClose) ops →
  IsConnected (client s) = true →
  IsConnected (client (run answer (steps ops s) w).1.1) = true.
Proof.
  revert s w. induction ops as [| op rest IH]; intros s w Hall Hc; [done|].
  apply Forall_cons in Hall as [Hop Hall]. cbn [steps].
  destruct (panicked s); [done|]. rewrite run_bind.
  pose proof (step_keeps_connected op s w Hop Hc) as Hstep.
  destruct (run answer (step op s) w) as [[s1 w1] tr1].
  specialize (IH s1 w1 Hall Hstep).
  by destruct (run answer (steps rest s1) w1) as [[s2 w2] tr2].
Qed.

(** X9. Nothing but [Close] lowers the connected flag. From a new client,
    after any sequence of calls and goroutine turns that contains no
    [Close], [IsConnected] is still true and the health check reports the
    broker as connected, whatever the environment answered in between:
    refused writes, failed subscriptions or receive errors do not show in
    the health report. *)
Theorem health_connected_until_close (brokerURL : string) (w : W)
    (mc : MessageClient) (w1 : W) (tr0 : list Obs) (ops : list Op) (w2 : W) :
  run answer (NewMessageClient brokerURL) w = (Some mc, None, w1, tr0) →
  Forall (λ op, op ≠ CallClose) ops →
  let s :=
    (run answer
       (steps ops {| client := mc; goroutines := []; panicked := false |})
       w2).1.1 in
  IsConnected (client s) = true ∧
  checkMessageBrokerHealth {| messageClient := Some (client s) |} = "connected".
Proof.
  intros Hnew Hops. apply new_client_fresh in Hnew as (_ & Hc & _).
  pose proof (steps_keep_connected ops
                {| client := mc; goroutines := []; panicked := false |}
                w2 Hops Hc) as H.
  cbv zeta. split; [done|]. unfold checkMessageBrokerHealth. simpl.
  by rewrite H.
Qed.
End TurnsAndHealth.

(** ** The command handlers *)

Section CommandContract.
Import Messaging Gateway.
Context {W : Type} (answer : ∀ e : Event, W → Resp e * W).

(** The contract, once the outcome of the publish is known. *)
Lemma command_contract_published queue command mc now err trp
    (accepted_response : Response) (line : string) fields :
  publish_outcome mc queue (VMap fields) err trp →
  ("command", VString command) ∈ fields →
  ("timestamp", VString now) ∈ fields →
  status accepted_response = StatusAccepted →
  command_contract queue command true true
    (match err with Some _ => failed_to_send | None => accepted_response end)
    (obs TimeNow now :: trp ++
       match err with
       | Some _ => [obs (Log ErrorLevel line) tt]
       | None => []
       end).
Proof.
  intros Hout Hcmd Hts Hacc. unfold command_contract.
  destruct Hout as [Hc | cause Hc | e cause data Hc He | data line' Hc];
    simpl; rewrite ?Hacc; split_and!.
  all: try lia.
  all: try by intros [|].
  all: try by intros d ct data' ?%elem_of_nil.
  all: try by intros v ?%elem_of_nil.
  all: try (intros d ct data' [= -> -> ->]%list_elem_of_singleton; done).
  all: try (intros v ->%list_elem_of_singleton; exists fields, now;
            split_and!; [done | done | by left | done]).
  all: try (split; [intros _; eexists; by left | done]).
  all: try done.
  all: try by split; [| intros []].
  split; [done|]. intros (l & [=]%list_elem_of_singleton).
Qed.

Lemma command_contract_no_client queue command bound :
  command_contract queue command false bound broker_not_available [].
Proof.
  unfold command_contract; simpl. split_and!; try done.
  - by split; [| intros []].
  - split; [done | by intros (l & ?%elem_of_nil)].
  - lia.
  - by intros d ct data ?%elem_of_nil.
  - by intros v ?%elem_of_nil.
Qed.

Lemma command_contract_bad_request queue command cause :
  command_contract queue command true false
    {| status := StatusBadRequest; body := [("error", cause)] |} [].
Proof.
  unfold command_contract; simpl. split_and!; try done.
  - split; [done | by intros (l & ?%elem_of_nil)].
  - lia.
  - by intros d ct data ?%elem_of_nil.
  - by intros v ?%elem_of_nil.
Qed.

(** Runs the publish inside a handler and hands over to the contract of
    the published command. *)
Ltac published answer :=
  simpl; ask answer; rewrite run_bind;
  match goal with
  | |- context [run answer (PublishToQueue ?q ?m ?mc) ?w] =>
      pose proof (publish_queue_outcome answer q m mc w) as Hout;
      destruct (run answer (PublishToQueue q m mc) w) as [[[e |] ?] trp];
      simpl;
      [ ask answer; match goal with u : unit |- _ => destruct u end;
        eapply (command_contract_published _ _ _ _ _ _
                  {| status := StatusAccepted; body := [] |} _ _ Hout)
      | eapply (command_contract_published _ _ _ _ _ _ _ "" _ Hout) ];
      first [reflexivity | repeat first [by left | right]]
  end.

(** X10. What the three command handlers owe their caller. The answer is
    503 exactly when the gateway holds no client, 400 exactly when it
    holds one and the body did not bind, 202 exactly when the transport
    accepted one write, and 500 exactly when an error was logged; without
    a client or with a malformed body nothing at all is asked of the
    environment. A handler writes at most once, only to its own queue and
    as [application/json], and the message it marshals carries its own
    command name and, as timestamp, a reading of the clock taken during
    the request. *)
Theorem command_handlers_contract (g : Gateway)
    (start : res StartBotRequest) (stop : res StopBotRequest)
    (fetch : res FetchHistoryRequest) (w : W) :
  let has_client := bool_decide (is_Some (messageClient g)) in
  (let '(response, _, tr) := run answer (handleStartBot g start) w in
   command_contract "queue://commands.start_bot" "start"
     has_client (is_Ok start) response tr) ∧
  (let '(response, _, tr) := run answer (handleStopBot g stop) w in
   command_contract "queue://commands.stop_bot" "stop"
     has_client (is_Ok stop) response tr) ∧
  (let '(response, _, tr) := run answer (handleFetchHistory g fetch) w in
   command_contract "queue://commands.fetch.history" "fetch_history"
     has_client (is_Ok fetch) response tr).
Proof.
  unfold handleStartBot, handleStopBot, handleFetchHistory.
  destruct (messageClient g) as [mc |]; cbv zeta.
  - split_and!.
    + destruct start as [request | cause];
        [published answer | apply command_contract_bad_request].
    + destruct stop as [request | cause];
        [published answer | apply command_contract_bad_request].
    + destruct fetch as [request | cause];
        [published answer | apply command_contract_bad_request].
  - split_and!; apply command_contract_no_client.
Qed.
End CommandContract.

(** ** strings *)

Section Strings.

Lemma HasPrefix_app prefix rest : HasPrefix (prefix +:+ rest) prefix = true.
Proof.
  induction prefix as [| p prefix IH]; [done|]. simpl.
  by rewrite Ascii.eqb_refl.
Qed.

Lemma HasPrefix_inv s prefix :
  HasPrefix s prefix = true → ∃ rest, s = prefix +:+ rest.
Proof.
  revert s. induction prefix as [| p prefix IH]; intros s H; simpl in *.
  - by exists s.
  - destruct s as [| c s]; [done|].
    destruct (Ascii.eqb c p) eqn:Hcp; [|done].
    apply Ascii.eqb_eq in Hcp as ->.
    destruct (IH _ H) as [rest ->]. by exists rest.
Qed.

Lemma string_from_app prefix rest :
  string_from (String.length prefix) (prefix +:+ rest) = rest.
Proof. induction prefix as [| p prefix IH]; simpl; [by destruct rest | done]. Qed.

Lemma TrimPrefix_app prefix rest : TrimPrefix (prefix +:+ rest) prefix = rest.
Proof.
  unfold TrimPrefix. by rewrite HasPrefix_app, string_from_app.
Qed.

Lemma string_app_length (a b : string) :
  String.length (a +:+ b) = String.length a + String.length b.
Proof. induction a as [| c a IH]; simpl; [done | by rewrite IH]. Qed.

Lemma TrimPrefix_same s prefix :
  prefix ≠ "" → (TrimPrefix s prefix = s ↔ HasPrefix s prefix = false).
Proof.
  intros Hne. unfold TrimPrefix.
  destruct (HasPrefix s prefix) eqn:Hp; [|done].
  split; [|done]. intros Heq. exfalso.
  apply HasPrefix_inv in Hp as [rest ->].
  rewrite string_from_app in Heq.
  apply (f_equal String.length) in Heq. rewrite string_app_length in Heq.
  destruct prefix; [done|]. simpl in Heq. lia.
Qed.
End Strings.

(** ** Running programs over any set of calls *)

Section ExecFacts.
Context {E : Type} {R : E → Type} {W : Type}.
Context (answer : ∀ e : E, W → R e * W).

Lemma exec_bind {A B} (p : Free E R A) (f : A → Free E R B) w :
  exec answer (p ≫= f) w =
    let '(a, w1, tr1) := exec answer p w in
    let '(b, w2, tr2) := exec answer (f a) w1 in
    (b, w2, tr1 ++ tr2).
Proof.
  revert w. induction p as [a | e k IH]; intros w; simpl.
  - by destruct (exec answer (f a) w) as [[b w2] tr2].
  - destruct (answer e w) as [r w1].
    specialize (IH r w1). unfold mbind in IH. rewrite IH.
    destruct (exec answer (k r) w1) as [[a w2] tr1].
    by destruct (exec answer (f a) w2) as [[b w3] tr2].
Qed.

(** The same, as [simpl] leaves the bind. *)
Lemma exec_bind_unfolded {A B} (p : Free E R A) (f : A → Free E R B) w :
  exec answer (Free_mbind A B f p) w =
    let '(a, w1, tr1) := exec answer p w in
    let '(b, w2, tr2) := exec answer (f a) w1 in
    (b, w2, tr1 ++ tr2).
Proof. apply exec_bind. Qed.
End ExecFacts.

(** ** config.LoadConfig *)

Section LoadingConfig.
Import Config.
Context {W : Type} (answer : ∀ c : Call, W → Answer c * W).

(** The four ways [LoadConfig] can run. *)
Lemma load_config_exec configPath w :
  let '(config, err, _, tr) := exec answer (LoadConfig configPath) w in
  (configPath = "" ∧ err = None ∧
   ∃ v, config = Some (with_env v zero) ∧ tr = env_reads v) ∨
  (configPath ≠ "" ∧ config = None ∧
   ∃ cause, err = Some (ErrOpen cause) ∧
            tr = [existT (OsOpen configPath) (Fail cause)]) ∨
  (configPath ≠ "" ∧ config = None ∧
   ∃ file cause, err = Some (ErrDecode cause) ∧
     tr = [existT (OsOpen configPath) (Ok file);
           existT (JsonDecode file) (Fail cause);
           existT (FileClose file) tt]) ∨
  (configPath ≠ "" ∧ err = None ∧
   ∃ file decoded v,
     config = Some (with_env v decoded) ∧
     tr = existT (OsOpen configPath) (Ok file)
          :: existT (JsonDecode file) (Ok decoded)
          :: env_reads v ++ [existT (FileClose file) tt]).
Proof.
  unfold LoadConfig, overrides. case_bool_decide as Hpath; simpl.
  - ask answer. destruct r as [file | cause]; simpl.
    + ask answer. destruct r as [decoded | cause]; simpl.
      * do 7 ask answer. destruct r5. do 3 right.
        split_and!; [done..|].
        by exists file, decoded,
          {| v_port := r; v_logLevel := r0; v_jwtSecret := r1;
             v_brokerURL := r2; v_coinbaseKey := r3; v_coinbaseSecret := r4 |}.
      * ask answer. destruct r. do 2 right. left.
        split_and!; [done..|]. by exists file, cause.
    + right. left. split_and!; [done..|]. by exists cause.
  - do 6 ask answer. left.
    split_and!; [by destruct (decide (configPath = "")) | done |].
    by exists {| v_port := r; v_logLevel := r0; v_jwtSecret := r1;
                 v_brokerURL := r2; v_coinbaseKey := r3;
                 v_coinbaseSecret := r4 |}.
Qed.

(** X11. [LoadConfig] returns a configuration exactly when it returns no
    error. Every file it opened it has closed, once, also when the file
    did not decode. With an empty path it opens nothing and cannot fail.
    The environment is read only when a configuration is returned: the
    six variables, each once, in a fixed order. An open error ends the
    call after that one call; a decode error after the close. *)
Theorem load_config_outcome (configPath : string) (w : W) :
  let '(config, err, _, tr) := exec answer (LoadConfig configPath) w in
  (is_Some config ↔ err = None) ∧
  omap file_closed tr = omap file_opened tr ∧
  (configPath = "" → is_Some config ∧ omap file_opened tr = [] ∧ length tr = 6) ∧
  (config = None → omap env_key tr = []) ∧
  (is_Some config →
     omap env_key tr = ["GATEWAY_PORT"; "LOG_LEVEL"; "JWT_SECRET";
                        "MESSAGE_BROKER_URL"; "COINBASE_API_KEY";
                        "COINBASE_API_SECRET"]) ∧
  (∀ e, err = Some e →
     match e with
     | ErrOpen _ => length tr = 1
     | ErrDecode _ => length tr = 3
     end).
Proof.
  pose proof (load_config_exec configPath w) as H.
  destruct (exec answer (LoadConfig configPath) w) as [[[config err] w'] tr].
  destruct H as [(-> & -> & v & -> & ->)
               | [(Hpath & -> & cause & -> & ->)
               | [(Hpath & -> & file & cause & -> & ->)
               | (Hpath & -> & file & decoded & v & -> & ->)]]].
  all: lazy beta iota zeta; split_and!; try done.
  all: by intros e [= <-].
Qed.

Lemma env_value_reads v key :
  env_value key (env_reads v) =
    if bool_decide (key = "GATEWAY_PORT") then v_port v
    else if bool_decide (key = "LOG_LEVEL") then v_logLevel v
    else if bool_decide (key = "JWT_SECRET") then v_jwtSecret v
    else if bool_decide (key = "MESSAGE_BROKER_URL") then v_brokerURL v
    else if bool_decide (key = "COINBASE_API_KEY") then v_coinbaseKey v
    else if bool_decide (key = "COINBASE_API_SECRET") then v_coinbaseSecret v
    else "".
Proof.
  unfold env_value, env_reads. simpl.
  repeat (rewrite (bool_decide_ext (_ = key) (key = _)) by naive_solver;
          case_bool_decide; [done|]; simpl).
  done.
Qed.

(** What [with_env] does to each field. *)
Lemma with_env_fields v c :
  let c' := with_env v c in
  ListenPort (apiGatewayConfig c')
    = (if bool_decide (v_port v ≠ "") then 8080%Z
       else ListenPort (apiGatewayConfig c)) ∧
  LogLevel (apiGatewayConfig c')
    = override (v_logLevel v) (LogLevel (apiGatewayConfig c)) ∧
  JWTSecretKey (apiGatewayConfig c')
    = override (v_jwtSecret v) (JWTSecretKey (apiGatewayConfig c)) ∧
  URL (messageBroker (serviceDependencies c'))
    = override (v_brokerURL v) (URL (messageBroker (serviceDependencies c))) ∧
  APIKeySecretRef (coinbaseAPI (externalDependencies c'))
    = override (v_coinbaseKey v)
        (APIKeySecretRef (coinbaseAPI (externalDependencies c))) ∧
  APISecretSecretRef (coinbaseAPI (externalDependencies c'))
    = override (v_coinbaseSecret v)
        (APISecretSecretRef (coinbaseAPI (externalDependencies c))) ∧
  CorsOrigins (apiGatewayConfig c') = CorsOrigins (apiGatewayConfig c) ∧
  SubscribedTopics (messageBroker (serviceDependencies c'))
    = SubscribedTopics (messageBroker (serviceDependencies c)) ∧
  PublishQueues (messageBroker (serviceDependencies c'))
    = PublishQueues (messageBroker (serviceDependencies c)) ∧
  InternalServices (serviceDependencies c')
    = InternalServices (serviceDependencies c) ∧
  uiService (serviceDependencies c') = uiService (serviceDependencies c) ∧
  RestURL (coinbaseAPI (externalDependencies c'))
    = RestURL (coinbaseAPI (externalDependencies c)).
Proof.
  unfold with_env, override; simpl.
  by repeat case_bool_decide.
Qed.

Lemma env_value_file key path file decoded v :
  env_value key
    (existT (OsOpen path) (Ok file) :: existT (JsonDecode file) (Ok decoded)
     :: env_reads v ++ [existT (FileClose file) tt])
  = env_value key (env_reads v).
Proof.
  unfold env_value. cbn [omap list_omap env_read]. rewrite omap_app.
  cbn [omap list_omap env_read projT1]. by rewrite app_nil_r.
Qed.

Lemma base_config_reads v : base_config (env_reads v) = zero.
Proof. done. Qed.

Lemma base_config_file path file decoded rest :
  base_config
    (existT (OsOpen path) (Ok file) :: existT (JsonDecode file) (Ok decoded)
     :: rest) = decoded.
Proof. done. Qed.

(** What a successful [LoadConfig] returns, field by field, in terms of
    what it read. *)
Lemma load_config_fields configPath w :
  let '(config, _, _, tr) := exec answer (LoadConfig configPath) w in
  ∀ c, config = Some c →
    ∃ v, c = with_env v (base_config tr) ∧
         ∀ key, env_value key tr = env_value key (env_reads v).
Proof.
  pose proof (load_config_exec configPath w) as H.
  destruct (exec answer (LoadConfig configPath) w) as [[[config err] w'] tr].
  destruct H as [(-> & -> & v & -> & ->)
               | [(Hpath & -> & cause & -> & ->)
               | [(Hpath & -> & file & cause & -> & ->)
               | (Hpath & -> & file & decoded & v & -> & ->)]]];
    intros c [= <-].
  - exists v. by rewrite base_config_reads.
  - exists v. rewrite base_config_file. split; [done|].
    intros key. apply env_value_file.
Qed.

(** X12. In the configuration [LoadConfig] returns, the log level, the JWT
    secret, the broker URL and the two Coinbase secrets are the values of
    [LOG_LEVEL], [JWT_SECRET], [MESSAGE_BROKER_URL], [COINBASE_API_KEY]
    and [COINBASE_API_SECRET] when those are set to a non-empty string,
    and otherwise what the file gave (the zero value without a file); the
    CORS origins, the topics and queues, the internal services, the UI
    service and the Coinbase REST URL always are what the file gave. *)
Theorem load_config_overrides (configPath : string) (w : W) :
  let '(config, _, _, tr) := exec answer (LoadConfig configPath) w in
  ∀ c, config = Some c →
    let base := base_config tr in
    LogLevel (apiGatewayConfig c)
      = override (env_value "LOG_LEVEL" tr) (LogLevel (apiGatewayConfig base)) ∧
    JWTSecretKey (apiGatewayConfig c)
      = override (env_value "JWT_SECRET" tr)
          (JWTSecretKey (apiGatewayConfig base)) ∧
    URL (messageBroker (serviceDependencies c))
      = override (env_value "MESSAGE_BROKER_URL" tr)
          (URL (messageBroker (serviceDependencies base))) ∧
    APIKeySecretRef (coinbaseAPI (externalDependencies c))
      = override (env_value "COINBASE_API_KEY" tr)
          (APIKeySecretRef (coinbaseAPI (externalDependencies base))) ∧
    APISecretSecretRef (coinbaseAPI (externalDependencies c))
      = override (env_value "COINBASE_API_SECRET" tr)
          (APISecretSecretRef (coinbaseAPI (externalDependencies base))) ∧
    CorsOrigins (apiGatewayConfig c) = CorsOrigins (apiGatewayConfig base) ∧
    SubscribedTopics (messageBroker (serviceDependencies c))
      = SubscribedTopics (messageBroker (serviceDependencies base)) ∧
    PublishQueues (messageBroker (serviceDependencies c))
      = PublishQueues (messageBroker (serviceDependencies base)) ∧
    InternalServices (serviceDependencies c)
      = InternalServices (serviceDependencies base) ∧
    uiService (serviceDependencies c) = uiService (serviceDependencies base) ∧
    RestURL (coinbaseAPI (externalDependencies c))
      = RestURL (coinbaseAPI (externalDependencies base)).
Proof.
  pose proof (load_config_fields configPath w) as H.
  destruct (exec answer (LoadConfig configPath) w) as [[[config err] w'] tr].
  intros c Hc. destruct (H c Hc) as (v & -> & Henv). cbv zeta.
  rewrite !Henv, !env_value_reads.
  pose proof (with_env_fields v (base_config tr)) as Hf. cbv zeta in Hf.
  destruct Hf as (_ & H1 & H2 & H3 & H4 & H5 & H6 & H7 & H8 & H9 & H10 & H11).
  by split_and!.
Qed.

(** X13. The value of [GATEWAY_PORT] is never used: whenever the variable
    is set to a non-empty string, whatever the string, the listen port of
    the configuration returned is 8080, also when the file gave another
    port; when it is unset or empty the port is the one the file gave. *)
Theorem gateway_port_value_ignored (configPath : string) (w : W) :
  let '(config, _, _, tr) := exec answer (LoadConfig configPath) w in
  ∀ c, config = Some c →
    ListenPort (apiGatewayConfig c)
      = if bool_decide (env_value "GATEWAY_PORT" tr ≠ "") then 8080%Z
        else ListenPort (apiGatewayConfig (base_config tr)).
Proof.
  pose proof (load_config_fields configPath w) as H.
  destruct (exec answer (LoadConfig configPath) w) as [[[config err] w'] tr].
  intros c Hc. destruct (H c Hc) as (v & -> & Henv).
  rewrite Henv, env_value_reads.
  by destruct (with_env_fields v (base_config tr)) as (-> & _).
Qed.

(** X14. [GetServiceByRoutePrefix] returns the first service of the list
    whose route prefix is the one asked for: the service returned is in
    the list and has that prefix, every service before it has another
    prefix, and nothing is returned exactly when no service has the
    prefix. *)
Theorem first_service_with_prefix (c : Config) (prefix : string) :
  match GetServiceByRoutePrefix c prefix with
  | Some service =>
      ∃ before after,
        InternalServices (serviceDependencies c) = before ++ service :: after ∧
        RoutePrefix service = prefix ∧
        Forall (λ s, RoutePrefix s ≠ prefix) before
  | None =>
      Forall (λ s, RoutePrefix s ≠ prefix)
        (InternalServices (serviceDependencies c))
  end.
Proof.
  unfold GetServiceByRoutePrefix.
  induction (InternalServices (serviceDependencies c)) as [| s rest IH];
    simpl; [done|].
  case_bool_decide as Hs.
  - by exists [], rest.
  - destruct (find_service prefix rest) as [service |].
    + destruct IH as (before & after & -> & Hp & Hall).
      exists (s :: before), after. split_and!; [done | done | by constructor].
    + by constructor.
Qed.
End LoadingConfig.

(** ** The reverse proxies *)

Section Proxies.
Import Proxy.
Context {W : Type} (answer : ∀ c : Call, W → Answer c * W).

(** When a prefix of [a +:+ x] is given, either it is a prefix of [a] or
    [a] is a prefix of it. *)
Lemma HasPrefix_app_inv a x p :
  HasPrefix (a +:+ x) p = true → HasPrefix a p = true ∨ HasPrefix p a = true.
Proof.
  revert p. induction a as [| c a IH]; intros p H.
  - right. by destruct p.
  - destruct p as [| d p]; [by left|]. simpl in *.
    destruct (Ascii.eqb c d) eqn:Hcd; [|done].
    apply Ascii.eqb_eq in Hcd as ->. rewrite Ascii.eqb_refl. by apply IH.
Qed.

(** X15. The UI and the Coinbase handlers parse the configured URL (the
    internal URL of the UI service, the REST URL of Coinbase) first and
    once. When it parses, a request under the mount point, [/api/ui] or
    [/external/coinbase], is forwarded once, to the proxy of the parsed
    target, with the mount point removed from its path, as [/] when
    nothing is left, and the handler writes no response of its own. When
    it does not parse, the handler answers 500 and forwards nothing. *)
Theorem mounted_proxies_strip_mount (config : Config.Config)
    (rest : string) (w : W) :
  (let '(response, _, tr) :=
     exec answer (proxyToUIService config ("/api/ui" +:+ rest)) w in
   mounted_contract
     (Config.InternalURL
        (Config.uiService (Config.serviceDependencies config)))
     rest response tr) ∧
  (let '(response, _, tr) :=
     exec answer (proxyToCoinbase config ("/external/coinbase" +:+ rest)) w in
   mounted_contract
     (Config.RestURL
        (Config.coinbaseAPI (Config.externalDependencies config)))
     rest response tr).
Proof.
  unfold mounted_contract, proxyToUIService, proxyToCoinbase; simpl.
  split.
  - ask answer. destruct r as [target | cause]; simpl.
    + rewrite (TrimPrefix_app "/api/ui" rest). do 2 ask answer.
      eexists (Ok target), _. by split_and!.
    + ask answer. eexists (Fail cause), _.
      split_and!; [done | done | by eexists | done].
  - ask answer. destruct r as [target | cause]; simpl.
    + rewrite (TrimPrefix_app "/external/coinbase" rest). do 2 ask answer.
      eexists (Ok target), _. by split_and!.
    + ask answer. eexists (Fail cause), _.
      split_and!; [done | done | by eexists | done].
Qed.

(** X16. The handler of an internal service removes the route prefix only
    from a path that begins with it. The route is registered inside the
    [/api] group, so the paths it serves begin with [/api]: unless the
    prefix and [/api] overlap (one begins with the other), such a path is
    forwarded exactly as it came, [/api] and route prefix included. *)
Theorem service_proxy_keeps_group_path (service : Config.InternalService)
    (target : Target) (rest : string) (w : W) :
  HasPrefix (Config.RoutePrefix service) "/api" = false →
  HasPrefix "/api" (Config.RoutePrefix service) = false →
  let path := "/api" +:+ Config.RoutePrefix service +:+ rest in
  omap forwarded (exec answer (serviceHandler service target path) w).2
    = [(target, path)] ∧
  omap forwarded
    (exec answer
       (serviceHandler service target (Config.RoutePrefix service +:+ rest)) w).2
    = [(target, if bool_decide (rest = "") then "/" else rest)].
Proof.
  intros H1 H2 path. unfold serviceHandler. split.
  - assert (TrimPrefix path (Config.RoutePrefix service) = path) as ->.
    { unfold TrimPrefix.
      destruct (HasPrefix path (Config.RoutePrefix service)) eqn:Hp; [|done].
      apply HasPrefix_app_inv in Hp as [Hp | Hp]; congruence. }
    rewrite bool_decide_eq_false_2 by done. simpl. by do 2 ask answer.
  - rewrite TrimPrefix_app. simpl. by do 2 ask answer.
Qed.
End Proxies.

(** ** The middleware *)

Section Middleware.
Import Auth.
Context {W : Type} (answer : ∀ c : Call, W → Answer c * W).




Lemma Bearer_format authHeader :
  TrimPrefix authHeader "Bearer " = authHeader
    ↔ HasPrefix authHeader "Bearer " = false.
Proof. by apply TrimPrefix_same. Qed.

(** X18. The auth middleware passes a request on only if its path is
    [/health], or its method is OPTIONS, or its [Authorization] header is
    [Bearer ] followed by a token that [jwt.Parse] accepted as valid with
    the key function of the gateway. Every request it answers itself it
    answers with 401. It parses at most once, and never for a request it
    lets through unchecked or whose header lacks the [Bearer ] prefix. *)
Theorem auth_middleware_lets_through (config : Config.Config)
    (path method authHeader : string) (w : W) :
  let '(checked, _, tr) :=
    exec answer (authMiddleware config path method authHeader) w in
  (∀ context, checked = Passed context →
     path = "/health" ∨ method = "OPTIONS" ∨
     ∃ token, authHeader = "Bearer " +:+ token ∧
              omap accepted_token tr = [token]) ∧
  (∀ response, checked = Answered response →
     Gateway.status response = StatusUnauthorized ∧
     omap accepted_token tr = []) ∧
  length (omap parsed tr) ≤ 1 ∧
  (∀ token, token ∈ omap parsed tr →
     path ≠ "/health" ∧ method ≠ "OPTIONS" ∧
     authHeader = "Bearer " +:+ token) ∧
  (∀ c, c ∈ tr → ∀ t f, projT1 c = JwtParse t f → f = keyFunc config).
Proof.
  unfold authMiddleware.
  destruct (bool_decide (path = "/health")) eqn:Hp; simpl.
  { apply bool_decide_eq_true in Hp.
    split_and!; [by left | done | lia | by intros t ?%elem_of_nil
                | by intros c ?%elem_of_nil]. }
  destruct (bool_decide (method = "OPTIONS")) eqn:Hm; simpl.
  { apply bool_decide_eq_true in Hm.
    split_and!; [by right; left | done | lia | by intros t ?%elem_of_nil
                | by intros c ?%elem_of_nil]. }
  apply bool_decide_eq_false in Hp, Hm.
  case_bool_decide as Hempty; simpl.
  { split_and!; [done | by intros r [= <-] | lia | by intros t ?%elem_of_nil
                | by intros c ?%elem_of_nil]. }
  case_bool_decide as Hformat; simpl.
  { split_and!; [done | by intros r [= <-] | lia | by intros t ?%elem_of_nil
                | by intros c ?%elem_of_nil]. }
  assert (HasPrefix authHeader "Bearer " = true) as Hprefix.
  { destruct (HasPrefix authHeader "Bearer ") eqn:Hb; [done|].
    by apply Bearer_format in Hb. }
  apply HasPrefix_inv in Hprefix as [token ->].
  rewrite TrimPrefix_app. ask answer.
  destruct r as [t | err]; simpl.
  - destruct (Valid t) eqn:Hv; simpl.
    + destruct (Claims t) as [claims |]; simpl; rewrite Hv.
      all: split_and!; [intros ctx _; do 2 right; by exists token | done | lia
                       | by intros ? ->%list_elem_of_singleton
                       | intros c ->%list_elem_of_singleton ?? [= _ <-]; done].
    + ask answer. destruct r. simpl. rewrite Hv.
      split_and!; [done | by intros r [= <-] | lia
                  | by intros ? ->%list_elem_of_singleton |].
      intros c [-> | ->%list_elem_of_singleton]%elem_of_cons ?? [=]. done.
  - ask answer. destruct r. simpl.
    split_and!; [done | by intros r [= <-] | lia
                | by intros ? ->%list_elem_of_singleton |].
    intros c [-> | ->%list_elem_of_singleton]%elem_of_cons ?? [=]. done.
Qed.
End Middleware.

(** ** Logging in *)

Section Login.
Import Auth.
Context {W : Type} (answer : ∀ c : Call, W → Answer c * W).

Lemma validateCredentials_accounts username password :
  validateCredentials username password = true
    ↔ (username, password) ∈ accounts.
Proof.
  unfold validateCredentials, validUsers, accounts.
  rewrite !elem_of_cons, elem_of_nil.
  destruct (decide (username = "admin")) as [-> | Hadmin].
  { rewrite lookup_insert_eq, bool_decide_eq_true. split; [|naive_solver].
    intros <-. by left. }
  rewrite lookup_insert_ne by done.
  destruct (decide (username = "trader")) as [-> | Htrader].
  { rewrite lookup_insert_eq, bool_decide_eq_true. split; [|naive_solver].
    intros <-. right. by left. }
  rewrite lookup_insert_ne by done.
  destruct (decide (username = "demo")) as [-> | Hdemo].
  { rewrite lookup_insert_eq, bool_decide_eq_true. split; [|naive_solver].
    intros <-. right. right. by left. }
  rewrite lookup_insert_ne, lookup_empty by done. naive_solver.
Qed.

Lemma day_in_seconds (t : Time) :
  Unix (Add t (24 * Hour)) = (Unix t + 86400)%Z.
Proof.
  unfold Unix, Add, Hour.
  replace (24 * (3600 * 10 ^ 9))%Z with (86400 * 10 ^ 9)%Z by lia.
  by rewrite Z.div_add by lia.
Qed.

(** X19. The login handler answers 400 exactly when the body did not bind
    and 401 exactly when it bound to a pair that is not one of the three
    accounts; in both cases nothing is signed, logged or read from the
    clock. It signs at most once, and only for one of the three accounts:
    with the JWT secret of the configuration as key and with the claims
    [user_id = "user123"], [username] = the name of the request and
    [roles = ["user"; "trader"]], whichever account logged in. It answers
    200 exactly when the signing gave a token, and 500 exactly when the
    signing failed. *)
Theorem login_contract (config : Config.Config) (bound : res LoginRequest)
    (w : W) :
  let '(reply, _, tr) := exec answer (handleLogin config bound) w in
  (reply_status reply = Gateway.StatusBadRequest ↔ ∃ err, bound = Fail err) ∧
  (reply_status reply = StatusUnauthorized
     ↔ ∃ request, bound = Ok request ∧
         (lr_Username request, Password request) ∉ accounts) ∧
  (reply_status reply = Gateway.StatusBadRequest ∨
   reply_status reply = StatusUnauthorized → tr = []) ∧
  length (omap signed tr) ≤ 1 ∧
  (∀ claims key, (claims, key) ∈ omap signed tr →
     key = Config.JWTSecretKey (Config.apiGatewayConfig config) ∧
     ∃ request, bound = Ok request ∧
       (lr_Username request, Password request) ∈ accounts ∧
       ("user_id", ClaimString "user123") ∈ claims ∧
       ("username", ClaimString (lr_Username request)) ∈ claims ∧
       ("roles", ClaimStrings ["user"; "trader"]) ∈ claims) ∧
  (reply_status reply = StatusOK
     ↔ ∃ token, omap issued tr = [token]) ∧
  (reply_status reply = Gateway.StatusInternalServerError
     ↔ omap signed tr ≠ [] ∧ omap issued tr = []).
Proof.
  unfold handleLogin. destruct bound as [request | err]; simpl.
  { destruct (validateCredentials _ _) eqn:Hv; simpl.
    - apply validateCredentials_accounts in Hv.
      unfold generateJWTToken.
      ask answer. ask answer. ask answer.
      destruct r1 as [token | err]; simpl.
      + ask answer. simpl. split_and!.
        * split; [done | by intros [? ?]].
        * split; [done | intros (? & [= <-] & ?); done].
        * by intros [|].
        * lia.
        * intros claims key Hin. apply list_elem_of_singleton in Hin.
          injection Hin as -> ->.
          split; [done|]. exists request. split_and!; [done | done | ..].
          all: rewrite !elem_of_cons; naive_solver.
        * split; [by exists token | done].
        * split; [done | by intros [_ ?]].
      + ask answer. destruct r1. simpl. split_and!.
        * split; [done | by intros [? ?]].
        * split; [done | intros (? & [= <-] & ?); done].
        * by intros [|].
        * lia.
        * intros claims key Hin. apply list_elem_of_singleton in Hin.
          injection Hin as -> ->.
          split; [done|]. exists request. split_and!; [done | done | ..].
          all: rewrite !elem_of_cons; naive_solver.
        * split; [done | by intros [? ?]].
        * done.
    - assert ((lr_Username request, Password request) ∉ accounts) as Hno.
      { rewrite <- validateCredentials_accounts. by rewrite Hv. }
      split_and!.
      + split; [done | by intros [? ?]].
      + split; [by exists request | done].
      + done.
      + lia.
      + by intros ?? ?%elem_of_nil.
      + split; [done | by intros [? ?]].
      + split; [done | by intros [? _]]. }
  split_and!.
  - split; [by exists err | done].
  - split; [done | by intros (? & ? & ?)].
  - done.
  - lia.
  - by intros ?? ?%elem_of_nil.
  - split; [done | by intros [? ?]].
  - split; [done | by intros [? _]].
Qed.

(** X20. When the login handler answers with a login response, the clock
    was read three times: the [exp] claim of the signed token is 86400
    seconds after the first reading, the [iat] claim is the second
    reading, and the [expiresAt] of the response is 24 hours after the
    third. So the response never announces an expiry earlier than the one
    in the token when the clock does not run backwards, and the token it
    carries is the one that was signed, for the user [user123] with the
    name of the request. *)
Theorem login_token_lifetime (config : Config.Config)
    (bound : res LoginRequest) (w : W) :
  let '(reply, _, tr) := exec answer (handleLogin config bound) w in
  ∀ status response, reply = ReplyLogin status response →
    ∃ t1 t2 t3 claims key request,
      bound = Ok request ∧
      omap clock tr = [t1; t2; t3] ∧
      omap signed tr = [(claims, key)] ∧
      omap issued tr = [Token_ response] ∧
      ("exp", ClaimInt (Unix t1 + 86400)) ∈ claims ∧
      ("iat", ClaimInt (Unix t2)) ∈ claims ∧
      ExpiresAt response = (t3 + 24 * Hour)%Z ∧
      ((t1 ≤ t3)%Z → (Unix t1 + 86400 ≤ Unix (ExpiresAt response))%Z) ∧
      User response = {| ID := "user123";
                         Username := lr_Username request;
                         Roles := ["user"; "trader"] |}.
Proof.
  unfold handleLogin. destruct bound as [request | err]; simpl; [|done].
  destruct (validateCredentials _ _); simpl; [|done].
  unfold generateJWTToken.
  ask answer. ask answer. ask answer.
  destruct r1 as [token | err]; simpl.
  - ask answer. simpl. intros status response [= <- <-].
    exists r, r0, r1. eexists _, _, request. split_and!; try done.
    + rewrite day_in_seconds, !elem_of_cons. naive_solver.
    + rewrite !elem_of_cons. naive_solver.
    + simpl. intros Hle. fold (Add r1 (24 * Hour)).
      rewrite day_in_seconds. apply Z.add_le_mono_r.
      by apply Z.div_le_mono.
  - ask answer. destruct r1. simpl. done.
Qed.
End Login.

(** ** Starting without the broker *)

Section Startup.
Import Messaging Gateway Main.
Context {W : Type} (answer : ∀ e : Event, W → Resp e * W).

(** X21. [main] starts the gateway whether or not the broker can be
    reached. The health of the broker it then reports is [connected] or
    [disconnected], never [error], and it is [disconnected] exactly when
    the startup logged a warning. In that case every connection the
    startup dialled has been closed again, each of the three command
    handlers answers 503 for every request without asking anything of
    the environment, and the shutdown has nothing to close. *)
Theorem startup_without_broker (brokerURL : string) (w : W) :
  let '(g, _, tr) := run answer (main_startup brokerURL) w in
  checkMessageBrokerHealth g ≠ "error" ∧
  (checkMessageBrokerHealth g = "disconnected"
     ↔ ∃ line, (WarnLevel, line) ∈ log_lines tr) ∧
  (checkMessageBrokerHealth g = "connected"
     ↔ (InfoLevel, "Connected to message broker") ∈ log_lines tr) ∧
  (checkMessageBrokerHealth g = "disconnected" →
     omap net_closed tr = omap dialled tr ∧
     ∀ w',
       (∀ bound,
          run answer (handleStartBot g bound) w'
            = (broker_not_available, w', [])) ∧
       (∀ bound,
          run answer (handleStopBot g bound) w'
            = (broker_not_available, w', [])) ∧
       (∀ bound,
          run answer (handleFetchHistory g bound) w'
            = (broker_not_available, w', [])) ∧
       run answer (main_shutdown (messageClient g)) w' = (tt, w', [])).
Proof.
  unfold main_startup, NewMessageClient, connect.
  rewrite JoinHostPort_artemis. simpl.
  ask answer. destruct r as [nc | cause]; simpl.
  - ask answer. destruct r as [c | cause]; simpl; ask answer; destruct r.
    + simpl. unfold checkMessageBrokerHealth, IsConnected; simpl.
      split_and!; [done | | | done].
      * split; [done|]. intros [line Hin]. unfold log_lines in Hin.
        simpl in Hin. by apply list_elem_of_singleton in Hin.
      * split; [|done]. intros _. unfold log_lines; simpl. by left.
    + simpl. ask answer. destruct r. simpl.
      unfold checkMessageBrokerHealth; simpl.
      split_and!; [done | | | done].
      * split; [|done]. intros _. eexists. unfold log_lines; simpl. by left.
      * split; [done|]. unfold log_lines; simpl.
        by intros ?%list_elem_of_singleton.
  - ask answer. destruct r. simpl.
    unfold checkMessageBrokerHealth; simpl.
    split_and!; [done | | | done].
    + split; [|done]. intros _. eexists. unfold log_lines; simpl. by left.
    + split; [done|]. unfold log_lines; simpl.
      by intros ?%list_elem_of_singleton.
Qed.
End Startup.

(** ** Concrete runs of the rest of the code *)

Section ConcreteRuns.
Import Messaging Gateway Examples Samples.

Lemma trading_reachable (f : Faults) : reachable (scripted f) trading_system.
Proof.
  eapply reachable_step with
    (s := {| client := new_client; goroutines := []; panicked := false |})
    (op := CallSubscribeToTopic trades 7) (w := 2);
  [ eapply reachable_new with (brokerURL := "stomp://localhost:61613") (w := 0);
    reflexivity
  | reflexivity
  | reflexivity ].
Qed.

Lemma closing_reachable : reachable closing_channels trading_system.
Proof.
  eapply reachable_step with
    (s := {| client := new_client; goroutines := []; panicked := false |})
    (op := CallSubscribeToTopic trades 7)
    (w := {| handles := 2; cancelled := [] |});
  [ eapply reachable_new with
      (brokerURL := "stomp://localhost:61613")
      (w := {| handles := 0; cancelled := [] |}); reflexivity
  | reflexivity
  | reflexivity ].
Qed.

Lemma unsubscribe_leaves_goroutine_witness :
  let w := {| handles := 3; cancelled := [] |} in
  reachable closing_channels trading_system ∧
  subscriptions (client trading_system) !! trades = Some 2 ∧
  let '(s1, w1, _) :=
    run closing_channels (step (CallUnsubscribe trades) trading_system) w in
  subscriptions (client s1) !! trades = None ∧
  goroutines s1 = [trading_consumer] ∧
  panicked s1 = false ∧
  (closing_channels (SubRecv 2) w1).1 = None.
Proof.
  intros w. pose proof closing_reachable as Hreach.
  assert (subscriptions (client trading_system) !! trades = Some 2) as Hsub
    by reflexivity.
  split_and!; [exact Hreach | exact Hsub |].
  generalize (unsubscribe_leaves_goroutine closing_channels trading_system
                trades 2 w Hreach Hsub).
  destruct (run _ _ _) as [[s1 w1] tr] eqn:E.
  intros (_ & Hgs & Hp & _).
  assert (subscriptions (client s1) !! trades = None ∧
          (closing_channels (SubRecv 2) w1).1 = None) as [Hgone Hnil].
  { assert (s1 = (run closing_channels
                    (step (CallUnsubscribe trades) trading_system) w).1.1)
      as -> by (by rewrite E).
    assert (w1 = (run closing_channels
                    (step (CallUnsubscribe trades) trading_system) w).1.2)
      as -> by (by rewrite E).
    split; vm_compute; reflexivity. }
  split_and!; [exact Hgone | exact Hgs | exact Hp | exact Hnil].
Defined.

Lemma reachable_client_invariants_witness :
  reachable (scripted no_faults) trading_system ∧
  is_Some (conn (client trading_system)) ∧
  ∃ handler,
    {| c_topic := trades; c_sub := 2; c_handler := handler |}
      ∈ goroutines trading_system.
Proof.
  pose proof (trading_reachable no_faults) as Hreach.
  destruct (reachable_client_invariants (scripted no_faults) trading_system
              Hreach) as (Hconn & _ & Hsubs).
  split_and!; [exact Hreach | exact Hconn | exact (Hsubs trades 2 eq_refl)].
Defined.

Lemma publish_writes_at_most_once_witness :
  (PublishToQueue = PublishToQueue ∨ PublishToQueue = PublishToTopic) ∧
  length (omap sent
            (run (scripted no_faults)
                 (PublishToQueue "queue://commands.stop_bot" (VString "stop")
                    new_client) 2).2) ≤ 1.
Proof.
  split; [by left|].
  generalize (publish_writes_at_most_once (scripted no_faults) PublishToQueue
                "queue://commands.stop_bot" (VString "stop") new_client 2
                (or_introl eq_refl)).
  destruct (run _ _ _) as [[err w'] tr]. intros [H _]. exact H.
Defined.

Lemma consumer_turn_effect_witness :
  goroutines trading_system !! 0 = Some trading_consumer ∧
  let '(s', _, tr) :=
    run (scripted receive_broken) (step (ConsumerTurn 0) trading_system) 3 in
  Forall (λ o, to_transport (event_of o) = false) tr ∧
  panicked s' = false ∧
  handler_calls tr = [] ∧
  subscriptions (client s')
    = delete trades (subscriptions (client trading_system)).
Proof.
  split; [reflexivity|].
  generalize (consumer_turn_effect (scripted receive_broken) trading_system 0
                trading_consumer 3 eq_refl).
  destruct (run _ _ _) as [[s' w'] tr] eqn:E.
  intros (Hquiet & read & rest & Htr & _ & H).
  assert (head tr
            = Some (obs (SubRecv 2)
                      (Some {| Err := Some "connection closed";
                               Body := [x7b; x7d] |}))) as Hhead.
  { apply (f_equal (λ x, head x.2)) in E. vm_compute in E. symmetry. exact E. }
  rewrite Htr in Hhead. simpl in Hhead.
  assert (read = Some {| Err := Some "connection closed"; Body := [x7b; x7d] |})
    as ->.
  { injection Hhead as Hread. apply (f_equal (λ o, received o)) in Hread.
    simpl in Hread. destruct read as [msg |]; [|discriminate Hread].
    exact Hread. }
  cbn [Err] in H. destruct H as (Hp & Hcalls & _ & Hsubs & _).
  split_and!; [exact Hquiet | exact Hp | exact Hcalls | exact Hsubs].
Defined.

Lemma health_connected_until_close_witness :
  let ops := [CallSubscribeToTopic trades 7; CallPublishToTopic trades VNil;
              ConsumerTurn 0] in
  run (scripted transport_down) (NewMessageClient "stomp://localhost:61613") 0
    = (Some new_client, None, 2,
       [obs (NetDialTimeout "tcp" "artemis-service:61613" 10) (Ok 0);
        obs (StompConnect 0 "admin" "admin") (Ok 1);
        obs (Log InfoLevel "Connected to message broker") tt]) ∧
  Forall (λ op, op ≠ CallClose) ops ∧
  checkMessageBrokerHealth
    {| messageClient :=
         Some (client
                 (run (scripted transport_down)
                    (steps ops
                       {| client := new_client; goroutines := [];
                          panicked := false |})
                    2).1.1) |}
    = "connected".
Proof.
  intros ops.
  assert (Forall (λ op, op ≠ CallClose) ops) as Hops
    by (repeat constructor; discriminate).
  split_and!; [reflexivity | exact Hops |].
  exact (proj2 (health_connected_until_close (scripted transport_down)
                  "stomp://localhost:61613" 0 new_client 2 _ ops 2
                  eq_refl Hops)).
Defined.
End ConcreteRuns.

Section ConcreteServices.
Import Samples.

Lemma load_config_overrides_witness :
  ∃ c,
    (exec deployed (Config.LoadConfig "gateway-config.json") 3).1.1.1 = Some c ∧
    Config.JWTSecretKey (Config.apiGatewayConfig c) = "s3cret" ∧
    Config.LogLevel (Config.apiGatewayConfig c) = "debug" ∧
    Config.InternalServices (Config.serviceDependencies c) = [portfolio].
Proof.
  pose proof (load_config_overrides deployed "gateway-config.json" 3) as H.
  destruct (exec deployed (Config.LoadConfig "gateway-config.json") 3)
    as [[[config err] w'] tr] eqn:E.
  vm_compute in E. injection E as <- <- <- <-.
  eexists. split; [reflexivity|].
  destruct (H _ eq_refl) as (Hlevel & Hsecret & _ & _ & _ & _ & _ & _ & Hsvc & _).
  split_and!; [exact Hsecret | exact Hlevel | exact Hsvc].
Defined.

Lemma gateway_port_value_ignored_witness :
  ∃ c,
    (exec deployed (Config.LoadConfig "gateway-config.json") 3).1.1.1 = Some c ∧
    Config.ListenPort (Config.apiGatewayConfig from_file) = 9090%Z ∧
    Config.ListenPort (Config.apiGatewayConfig c) = 8080%Z.
Proof.
  pose proof (gateway_port_value_ignored deployed "gateway-config.json" 3) as H.
  destruct (exec deployed (Config.LoadConfig "gateway-config.json") 3)
    as [[[config err] w'] tr] eqn:E.
  vm_compute in E. injection E as <- <- <- <-.
  eexists. split_and!; [reflexivity | reflexivity | exact (H _ eq_refl)].
Defined.

Lemma service_proxy_keeps_group_path_witness :
  HasPrefix (Config.RoutePrefix portfolio) "/api" = false ∧
  HasPrefix "/api" (Config.RoutePrefix portfolio) = false ∧
  omap Proxy.forwarded
    (exec proxying
       (Proxy.serviceHandler portfolio 0 "/api/v1/portfolio/positions") 1).2
    = [(0, "/api/v1/portfolio/positions")].
Proof.
  split_and!; [reflexivity | reflexivity |].
  exact (proj1 (service_proxy_keeps_group_path proxying portfolio 0
                  "/positions" 1 eq_refl eq_refl)).
Defined.

Lemma login_token_lifetime_witness :
  ∃ response,
    (exec signing (Auth.handleLogin from_file (Ok admin_login)) 0%Z).1.1
      = Auth.ReplyLogin Auth.StatusOK response ∧
    Auth.ExpiresAt response = (2 * 10 ^ 9 + 24 * Auth.Hour)%Z ∧
    Auth.User response
      = {| Auth.ID := "user123"; Auth.Username := "admin";
           Auth.Roles := ["user"; "trader"] |} ∧
    omap Auth.issued
      (exec signing (Auth.handleLogin from_file (Ok admin_login)) 0%Z).2
      = [Auth.Token_ response].
Proof.
  pose proof (login_token_lifetime signing from_file (Ok admin_login) 0%Z) as H.
  destruct (exec signing (Auth.handleLogin from_file (Ok admin_login)) 0%Z)
    as [[reply w'] tr] eqn:E.
  vm_compute in E. injection E as <- <- <-.
  eexists. split; [reflexivity|].
  destruct (H _ _ eq_refl)
    as (t1 & t2 & t3 & claims & key & request & Hbound & Hclock & _ & Htoken
        & _ & _ & Hexp & _ & Huser).
  injection Hbound as <-. injection Hclock as _ _ <-.
  split_and!; [exact Hexp | exact Huser | exact Htoken].
Defined.
End ConcreteServices.
